(** * VisionDraw: the gesture-to-stroke pipeline of [src/App.tsx]

    A shallow embedding of the drawing core of the [App] component:
    the per-frame callback [onResults], the stroke finalizer [finishPath],
    the two renderers [renderMainCanvas] and [drawLive], and the manual
    [clearCanvas].  JavaScript numbers are IEEE 754 binary64 values, so
    coordinates are Rocq's primitive [float]s and [<], [-], [*], [+] are the
    primitive float operations.  The React refs are fields of one explicit
    [State] record that every function takes and returns; a 2D canvas
    context is modelled by the sequence of calls issued on it. *)

From Stdlib Require Import String List Bool Arith Lia ZArith.
From Stdlib Require Import Floats.
Import ListNotations.

(* Decimal literals denote the nearest binary64 value, as in JavaScript. *)
Set Warnings "-inexact-float".

Local Open Scope list_scope.

(** ** Data model ([src/types.ts]) *)

(** A JavaScript [number]. *)
Definition number := float.
Bind Scope float_scope with number.

Record Point := mkPoint { x : number; y : number }.

Record DrawingPath := mkDrawingPath {
  points : list Point;
  color : string;
  width : number
}.

Inductive GestureMode := DRAWING | HOVERING | IDLE.

(** One hand landmark as the estimator reports it: normalized image
    coordinates.  The source reads only [.x] and [.y]. *)
Record Landmark := mkLandmark { lm_x : number; lm_y : number; lm_z : number }.

(** The argument of [onResults]: [results.multiHandLandmarks] is absent
    ([None]) or an array of hands, each an array of landmarks. *)
Record Results := mkResults {
  multiHandLandmarks : option (list (list Landmark))
}.

(** ** Canvas model *)

(** The calls a 2D context receives.  Property assignments such as
    [ctx.strokeStyle = c] are calls too. *)
Inductive CanvasCall :=
| ClearRect (cx cy cw ch : number)
| SetStrokeStyle (c : string)
| SetLineWidth (w : number)
| SetLineCap (s : string)
| SetLineJoin (s : string)
| BeginPath
| MoveTo (cx cy : number)
| LineTo (cx cy : number)
| Stroke
| Save
| Restore
| Translate (cx cy : number)
| Scale (sx sy : number)
| Arc (cx cy r a0 a1 : number)
| SetFillStyle (c : string)
| Fill
| DrawConnectors (lms : list Landmark) (c : string) (w : number)
| DrawLandmarks (lms : list Landmark) (c : string) (w r : number).

(** A mounted [<canvas>] element: its dimensions and the calls issued so
    far on its 2D context, oldest first.  The component only ever asks for
    the ['2d'] context, so [getContext('2d')] succeeds on a mounted canvas. *)
Record Canvas := mkCanvas {
  canvas_width : number;
  canvas_height : number;
  calls : list CanvasCall
}.

Definition issue (cs : list CanvasCall) (c : Canvas) : Canvas :=
  mkCanvas (canvas_width c) (canvas_height c) (calls c ++ cs).

(** ** Component state

    The [useState] cells and [useRef] cells of [App] that the drawing core
    reads or writes.  A ref of a canvas is [None] while it is not mounted. *)
Record State := mkState {
  brushColor : string;
  brushWidth : number;
  gestureMode : GestureMode;
  analysis : option string;
  colorRef : string;
  widthRef : number;
  canvasRef : option Canvas;
  overlayCanvasRef : option Canvas;
  pathsRef : list DrawingPath;
  currentPathRef : list Point
}.

Definition set_gestureMode (m : GestureMode) (st : State) : State :=
  mkState (brushColor st) (brushWidth st) m (analysis st)
          (colorRef st) (widthRef st) (canvasRef st) (overlayCanvasRef st)
          (pathsRef st) (currentPathRef st).

Definition set_analysis (a : option string) (st : State) : State :=
  mkState (brushColor st) (brushWidth st) (gestureMode st) a
          (colorRef st) (widthRef st) (canvasRef st) (overlayCanvasRef st)
          (pathsRef st) (currentPathRef st).

Definition set_canvasRef (c : option Canvas) (st : State) : State :=
  mkState (brushColor st) (brushWidth st) (gestureMode st) (analysis st)
          (colorRef st) (widthRef st) c (overlayCanvasRef st)
          (pathsRef st) (currentPathRef st).

Definition set_overlayCanvasRef (c : option Canvas) (st : State) : State :=
  mkState (brushColor st) (brushWidth st) (gestureMode st) (analysis st)
          (colorRef st) (widthRef st) (canvasRef st) c
          (pathsRef st) (currentPathRef st).

Definition set_pathsRef (ps : list DrawingPath) (st : State) : State :=
  mkState (brushColor st) (brushWidth st) (gestureMode st) (analysis st)
          (colorRef st) (widthRef st) (canvasRef st) (overlayCanvasRef st)
          ps (currentPathRef st).

Definition set_currentPathRef (pts : list Point) (st : State) : State :=
  mkState (brushColor st) (brushWidth st) (gestureMode st) (analysis st)
          (colorRef st) (widthRef st) (canvasRef st) (overlayCanvasRef st)
          (pathsRef st) pts.

(** [setBrushColor c] followed by the effect that copies the new value
    into [colorRef]; likewise for the width. *)
Definition setBrushColor (c : string) (st : State) : State :=
  mkState c (brushWidth st) (gestureMode st) (analysis st)
          c (widthRef st) (canvasRef st) (overlayCanvasRef st)
          (pathsRef st) (currentPathRef st).

Definition setBrushWidth (w : number) (st : State) : State :=
  mkState (brushColor st) w (gestureMode st) (analysis st)
          (colorRef st) w (canvasRef st) (overlayCanvasRef st)
          (pathsRef st) (currentPathRef st).

(** The state right after the first render: white brush of width 5, [IDLE],
    nothing drawn. *)
Definition initialState (canvas overlay : option Canvas) : State :=
  mkState "#ffffff" 5%float IDLE None "#ffffff" 5%float canvas overlay [] [].

(** ** Renderers *)

(** The body of the [for (let i = 1; i < path.points.length; i++)] loop of
    [renderMainCanvas], run for the indices [i], [i+1], ... as long as
    [path.points[i]] exists (which is the loop condition). *)
Definition lineTos (pts : list Point) : list CanvasCall :=
  flat_map
    (fun i => match nth_error pts i with
              | Some p => [LineTo (x p) (y p)]
              | None => []
              end)
    (seq 1 (length pts - 1)).

(** The callback [renderMainCanvas] hands to [forEach], for one path. *)
Definition renderPath (path : DrawingPath) : list CanvasCall :=
  if length (points path) <? 2 then []
  else
    match nth_error (points path) 0 with
    | None => []
    | Some p0 =>
        [SetStrokeStyle (color path); SetLineWidth (width path);
         SetLineCap "round"; SetLineJoin "round"; BeginPath;
         MoveTo (x p0) (y p0)]
        ++ lineTos (points path)
        ++ [Stroke]
    end.

Definition renderMainCanvas (st : State) : State :=
  match canvasRef st with
  | None => st
  | Some c =>
      set_canvasRef
        (Some (issue (ClearRect 0 0 (canvas_width c) (canvas_height c)
                      :: flat_map renderPath (pathsRef st)) c))
        st
  end.

Definition finishPath (st : State) : State :=
  if 0 <? length (currentPathRef st) then
    let st1 :=
      set_pathsRef
        (pathsRef st
         ++ [mkDrawingPath (currentPathRef st) (colorRef st) (widthRef st)])
        st in
    let st2 := set_currentPathRef [] st1 in
    renderMainCanvas st2
  else st.

Definition drawLive (st : State) : State :=
  match canvasRef st with
  | None => st
  | Some c =>
      if length (currentPathRef st) <? 2 then st
      else
        let pts := currentPathRef st in
        match nth_error pts (length pts - 2), nth_error pts (length pts - 1) with
        | Some last, Some current =>
            set_canvasRef
              (Some (issue [SetStrokeStyle (colorRef st);
                            SetLineWidth (widthRef st);
                            SetLineCap "round"; SetLineJoin "round";
                            BeginPath;
                            MoveTo (x last) (y last);
                            LineTo (x current) (y current);
                            Stroke] c))
              st
        | _, _ => st
        end
  end.

(** ** The per-frame callback *)

(** [Math.PI]. *)
Definition PI : number := 0x1.921fb54442d18p+1%float.

(** Calls issued on the overlay canvas's context. *)
Definition overlayIssue (cs : list CanvasCall) (st : State) : State :=
  set_overlayCanvasRef (option_map (issue cs) (overlayCanvasRef st)) st.

(** [currentPathRef.current.push(p)]. *)
Definition pushPoint (p : Point) (st : State) : State :=
  set_currentPathRef (currentPathRef st ++ [p]) st.

(** How a call of [onResults] ends: it returns, or a property read on
    [undefined] throws a [TypeError] (a hand with a missing landmark).  Either
    way the state carries the mutations made so far. *)
Inductive Outcome :=
| Returned (st : State)
| Threw (st : State).

Definition stateOf (o : Outcome) : State :=
  match o with Returned st | Threw st => st end.

Definition isIndexExtended (indexTip indexPip : Landmark) : bool :=
  (lm_y indexTip <? lm_y indexPip)%float.

Definition isMiddleExtended (middleTip indexPip : Landmark) : bool :=
  (lm_y middleTip <? lm_y indexPip)%float.

Definition onResults (results : Results) (st : State) : Outcome :=
  match overlayCanvasRef st, canvasRef st with
  | Some overlay, Some _ =>
      let W := canvas_width overlay in
      let H := canvas_height overlay in
      let st :=
        overlayIssue [Save; ClearRect 0 0 W H; Translate W 0; Scale (-1) 1] st in
      match multiHandLandmarks results with
      | Some (landmarks :: _) =>
          let st :=
            overlayIssue [DrawConnectors landmarks "#00FF00" 2;
                          DrawLandmarks landmarks "#FF0000" 1 2] st in
          match nth_error landmarks 8, nth_error landmarks 12,
                nth_error landmarks 6 with
          | Some indexTip, Some middleTip, Some indexPip =>
              let px := ((1 - lm_x indexTip) * W)%float in
              let py := (lm_y indexTip * H)%float in
              let st :=
                if isIndexExtended indexTip indexPip
                   && negb (isMiddleExtended middleTip indexPip)
                then drawLive (pushPoint (mkPoint px py)
                                         (set_gestureMode DRAWING st))
                else if isIndexExtended indexTip indexPip
                        && isMiddleExtended middleTip indexPip
                then finishPath (set_gestureMode HOVERING st)
                else finishPath (set_gestureMode IDLE st) in
              let st :=
                overlayIssue [BeginPath;
                              Arc px py (widthRef st + 2) 0 (2 * PI);
                              SetFillStyle (colorRef st);
                              Fill] st in
              Returned (overlayIssue [Restore] st)
          | _, _, _ => Threw st
          end
      | _ =>
          Returned (overlayIssue [Restore]
                      (finishPath (set_gestureMode IDLE st)))
      end
  | _, _ => Returned st
  end.

(** [clearCanvas], the handler of the Clear button. *)
Definition clearCanvas (st : State) : State :=
  set_analysis None
    (renderMainCanvas (set_currentPathRef [] (set_pathsRef [] st))).

(** ** Events

    What can happen to the component between two renders: the estimator
    delivers a result, or the user picks a colour, moves the size slider or
    presses Clear.  [onFrame] wraps the estimator call in [try]/[catch], so
    a throwing [onResults] leaves the state as it was at the throw. *)
Inductive Event :=
| Frame (results : Results)
| SetBrushColor (c : string)
| SetBrushWidth (w : number)
| ClearCanvas.

Definition step (st : State) (e : Event) : State :=
  match e with
  | Frame results => stateOf (onResults results st)
  | SetBrushColor c => setBrushColor c st
  | SetBrushWidth w => setBrushWidth w st
  | ClearCanvas => clearCanvas st
  end.

Definition run (es : list Event) (st : State) : State :=
  fold_left step es st.

Inductive reachable : State -> Prop :=
| reachable_init canvas overlay : reachable (initialState canvas overlay)
| reachable_step st e : reachable st -> reachable (step st e).

(** ** Reading a frame

    The three branches of [onResults] as a function of the frame alone: the
    mode the callback passes to [setGestureMode], and the point it computes
    from the index fingertip.  [None] stands for a hand that lacks one of
    the landmarks 6, 8, 12. *)
Definition frameHand (results : Results) : option (list Landmark) :=
  match multiHandLandmarks results with
  | Some (landmarks :: _) => Some landmarks
  | _ => None
  end.

Definition handComplete (landmarks : list Landmark) : bool :=
  match nth_error landmarks 8, nth_error landmarks 12, nth_error landmarks 6 with
  | Some _, Some _, Some _ => true
  | _, _, _ => false
  end.

Definition handMode (landmarks : list Landmark) : option GestureMode :=
  match nth_error landmarks 8, nth_error landmarks 12, nth_error landmarks 6 with
  | Some indexTip, Some middleTip, Some indexPip =>
      Some (if isIndexExtended indexTip indexPip
               && negb (isMiddleExtended middleTip indexPip)
            then DRAWING
            else if isIndexExtended indexTip indexPip
                    && isMiddleExtended middleTip indexPip
            then HOVERING
            else IDLE)
  | _, _, _ => None
  end.

Definition frameMode (results : Results) : option GestureMode :=
  match frameHand results with
  | Some landmarks => handMode landmarks
  | None => Some IDLE
  end.

Definition cursorOf (indexTip : Landmark) (W H : number) : Point :=
  mkPoint ((1 - lm_x indexTip) * W)%float (lm_y indexTip * H)%float.

Definition frameCursor (results : Results) (W H : number) : option Point :=
  match frameHand results with
  | Some landmarks =>
      match nth_error landmarks 8 with
      | Some indexTip => Some (cursorOf indexTip W H)
      | None => None
      end
  | None => None
  end.

Definition overlaySize (st : State) : option (number * number) :=
  option_map (fun c => (canvas_width c, canvas_height c)) (overlayCanvasRef st).

Definition mounted (st : State) : bool :=
  match overlayCanvasRef st, canvasRef st with
  | Some _, Some _ => true
  | _, _ => false
  end.

(** The number of points of each stroke on the drawing surface. *)
Definition strokeSizes (st : State) : list nat :=
  map (fun path => length (points path)) (pathsRef st).

(** * Sample inputs *)

(** The two canvases of the component are 1280 by 720. *)
Definition sampleCanvas : Canvas := mkCanvas 1280 720 [].

Definition sampleState : State :=
  initialState (Some sampleCanvas) (Some sampleCanvas).

(** A hand of 21 landmarks, all at [rest] except the index PIP joint (6),
    the index fingertip (8) and the middle fingertip (12). *)
Definition handOf (indexPip indexTip middleTip rest : Landmark) : list Landmark :=
  repeat rest 6 ++ [indexPip; rest; indexTip; rest; rest; rest; middleTip]
  ++ repeat rest 8.

Definition frameOf (indexPip indexTip middleTip : Landmark) : Results :=
  mkResults
    (Some [handOf indexPip indexTip middleTip (mkLandmark 0.5 0.5 0)]).

Definition noHand : Results := mkResults (Some []).

(** Frames on which the index fingertip is at normalized [(nx, ny)]: the
    index finger alone raised, both fingers raised, and a closed hand. *)
Definition drawingFrame (nx ny : number) : Results :=
  frameOf (mkLandmark 0.5 0.9 0) (mkLandmark nx ny 0) (mkLandmark 0.5 0.95 0).

Definition hoveringFrame (nx ny : number) : Results :=
  frameOf (mkLandmark 0.5 0.9 0) (mkLandmark nx ny 0) (mkLandmark 0.5 0.5 0).

Definition idleFrame : Results :=
  frameOf (mkLandmark 0.5 0.9 0) (mkLandmark 0.5 0.95 0) (mkLandmark 0.5 0.95 0).

(** A 16 by 16 canvas pair, on which the fingertip positions of the
    scenarios are exact. *)
Definition smallCanvas : Canvas := mkCanvas 16 16 [].

Definition smallState : State :=
  initialState (Some smallCanvas) (Some smallCanvas).

(** * The state apart from the drawing calls

    Most properties of the pipeline concern the refs and not the pixels.
    [eraseCalls] forgets the calls recorded on both canvases and keeps
    everything else, dimensions included. *)

Definition eraseCanvas (c : Canvas) : Canvas :=
  mkCanvas (canvas_width c) (canvas_height c) [].

Definition eraseCalls (st : State) : State :=
  mkState (brushColor st) (brushWidth st) (gestureMode st) (analysis st)
          (colorRef st) (widthRef st)
          (option_map eraseCanvas (canvasRef st))
          (option_map eraseCanvas (overlayCanvasRef st))
          (pathsRef st) (currentPathRef st).

(** * Observing the canvases *)

(** The calls recorded so far on the main canvas and on the overlay; none
    while the canvas is not mounted. *)
Definition mainCalls (st : State) : list CanvasCall :=
  match canvasRef st with
  | Some c => calls c
  | None => []
  end.

Definition overlayCalls (st : State) : list CanvasCall :=
  match overlayCanvasRef st with
  | Some c => calls c
  | None => []
  end.

(** One straight segment with round caps, as [drawLive] strokes it. *)
Definition segment (c : string) (w : number) (a b : Point) : list CanvasCall :=
  [SetStrokeStyle c; SetLineWidth w; SetLineCap "round"; SetLineJoin "round";
   BeginPath; MoveTo (x a) (y a); LineTo (x b) (y b); Stroke].

(** What [onResults] issues on the overlay before it looks at the hand, the
    skeleton it draws for a hand, and the cursor circle. *)
Definition overlayPrologue (W H : number) : list CanvasCall :=
  [Save; ClearRect 0 0 W H; Translate W 0; Scale (-1) 1].

Definition overlaySkeleton (landmarks : list Landmark) : list CanvasCall :=
  [DrawConnectors landmarks "#00FF00" 2; DrawLandmarks landmarks "#FF0000" 1 2].

Definition overlayCursor (p : Point) (c : string) (w : number)
  : list CanvasCall :=
  [BeginPath; Arc (x p) (y p) (w + 2) 0 (2 * PI); SetFillStyle c; Fill].

(** The segments of the polyline through [pts], one after the other, each
    stroked on its own. *)
Definition polySegments (c : string) (w : number) (pts : list Point)
  : list CanvasCall :=
  flat_map (fun ab => segment c w (fst ab) (snd ab)) (combine pts (tl pts)).

(** The last point of the live path, if any. *)
Definition lastPoint (st : State) : list Point :=
  match rev (currentPathRef st) with
  | a :: _ => [a]
  | [] => []
  end.

(** * The Analyze button ([handleAnalyze])

    [handleAnalyze] is asynchronous: it runs up to the [await] of the remote
    analysis and resumes when the answer arrives.  The drawing pipeline keeps
    running in between.  [toDataURL] stands for the PNG encoding of a
    canvas, and the request carries its result. *)

Record AppState := mkAppState {
  drawing : State;
  isAnalyzing : bool
}.

(** Up to the [await]: the new state and the image sent for analysis, if
    any. *)
Definition handleAnalyze_request (toDataURL : Canvas -> string) (a : AppState)
  : AppState * option string :=
  match canvasRef (drawing a) with
  | None => (a, None)
  | Some c =>
      if length (pathsRef (drawing a)) =? 0 then (a, None)
      else (mkAppState (drawing a) true, Some (toDataURL c))
  end.

(** After the [await]. *)
Definition handleAnalyze_resolve (result : string) (a : AppState) : AppState :=
  mkAppState (set_analysis (Some result) (drawing a)) false.


(** * Facts about number comparison

    [<] and [>=] on binary64 values, through the specification of the
    primitive comparisons: they exclude each other, and they are exhaustive
    on operands that are not NaN. *)

Module NumberOrder.

Lemma SFcompare_swap (a b : spec_float) :
  SFcompare b a = option_map CompOpp (SFcompare a b).
Proof.
  destruct a as [sa|sa| |sa ma ea], b as [sb|sb| |sb mb eb]; simpl;
    try reflexivity;
    try (destruct sa; reflexivity);
    try (destruct sb; reflexivity);
    try (destruct sa, sb; reflexivity).
  assert (Hm : Pos.compare_cont Eq mb ma = CompOpp (Pos.compare_cont Eq ma mb))
    by (symmetry; apply (Pos.compare_cont_antisym ma mb Eq)).
  destruct sa, sb; simpl; try reflexivity;
    rewrite (Z.compare_antisym ea eb), Hm;
    destruct (ea ?= eb)%Z; simpl; try reflexivity;
    apply CompOpp_involutive.
Qed.

Lemma nan_spec (a : float) : is_nan a = true -> Prim2SF a = S754_nan.
Proof. intros H. unfold Prim2SF. rewrite H. reflexivity. Qed.

Lemma not_nan_spec (a : float) : is_nan a = false -> Prim2SF a <> S754_nan.
Proof.
  intros H. unfold Prim2SF. rewrite H.
  destruct (is_zero a); [discriminate|].
  destruct (is_infinity a); [discriminate|].
  destruct (Z.frexp a) as [r e].
  destruct (shr_fexp _ _ _ _ _) as [shr e'].
  destruct (shr_m shr); discriminate.
Qed.

Lemma compare_not_nan (a b : spec_float) :
  a <> S754_nan -> b <> S754_nan -> exists c, SFcompare a b = Some c.
Proof.
  intros Ha Hb.
  destruct a as [sa|sa| |sa ma ea], b as [sb|sb| |sb mb eb];
    try congruence; simpl; eauto.
Qed.

Lemma compare_some_r (a b : spec_float) c :
  SFcompare a b = Some c -> b <> S754_nan.
Proof.
  intros H E. subst b. destruct a; discriminate.
Qed.

(** [a >= b] (that is, [b <= a]) excludes [a < b]. *)
Lemma leb_true_ltb_false (a b : float) :
  (b <=? a)%float = true -> (a <? b)%float = false.
Proof.
  rewrite leb_spec, ltb_spec. unfold SFleb, SFltb.
  rewrite (SFcompare_swap (Prim2SF a) (Prim2SF b)).
  destruct (SFcompare (Prim2SF a) (Prim2SF b)) as [[]|]; simpl; congruence.
Qed.

(** [a < b] can only hold for a [b] that is not NaN. *)
Lemma ltb_true_not_nan_r (a b : float) :
  (a <? b)%float = true -> is_nan b = false.
Proof.
  rewrite ltb_spec. unfold SFltb. intros H.
  destruct (is_nan b) eqn:E; [|reflexivity].
  apply nan_spec in E.
  destruct (SFcompare (Prim2SF a) (Prim2SF b)) as [c|] eqn:Hc; [|discriminate].
  apply compare_some_r in Hc. contradiction.
Qed.

(** On operands that are not NaN, [b <= a] is the negation of [a < b]. *)
Lemma leb_negb_ltb (a b : float) :
  is_nan a = false -> is_nan b = false ->
  (b <=? a)%float = negb (a <? b)%float.
Proof.
  intros Ha Hb. apply not_nan_spec in Ha, Hb.
  rewrite leb_spec, ltb_spec. unfold SFleb, SFltb.
  rewrite (SFcompare_swap (Prim2SF a) (Prim2SF b)).
  destruct (compare_not_nan _ _ Ha Hb) as [c Hc]. rewrite Hc.
  destruct c; reflexivity.
Qed.

End NumberOrder.

(** * Erasing the drawing calls *)

Lemma eraseCalls_overlayIssue cs st :
  eraseCalls (overlayIssue cs st) = eraseCalls st.
Proof.
  destruct st as [bc bw gm an cr wr cv ov ps cp]; destruct ov; reflexivity.
Qed.

Lemma eraseCalls_renderMainCanvas st :
  eraseCalls (renderMainCanvas st) = eraseCalls st.
Proof.
  destruct st as [bc bw gm an cr wr cv ov ps cp]; destruct cv; reflexivity.
Qed.

Lemma eraseCalls_drawLive st :
  eraseCalls (drawLive st) = eraseCalls st.
Proof.
  unfold drawLive.
  destruct (canvasRef st) as [c|] eqn:Hc; [|reflexivity].
  destruct (length (currentPathRef st) <? 2); [reflexivity|].
  destruct (nth_error _ _); [|reflexivity].
  destruct (nth_error _ _); [|reflexivity].
  destruct st as [bc bw gm an cr wr cv ov ps cp]; simpl in *; subst cv.
  reflexivity.
Qed.

Lemma eraseCalls_idem st : eraseCalls (eraseCalls st) = eraseCalls st.
Proof.
  destruct st as [bc bw gm an cr wr cv ov ps cp]; destruct cv, ov; reflexivity.
Qed.

(** Functions that ignore the recorded calls commute with erasing them. *)
Lemma eraseCalls_set_gestureMode m st :
  eraseCalls (set_gestureMode m st) = set_gestureMode m (eraseCalls st).
Proof. reflexivity. Qed.

Lemma eraseCalls_pushPoint p st :
  eraseCalls (pushPoint p st) = pushPoint p (eraseCalls st).
Proof. reflexivity. Qed.

Lemma eraseCalls_set_currentPathRef pts st :
  eraseCalls (set_currentPathRef pts st) = set_currentPathRef pts (eraseCalls st).
Proof. reflexivity. Qed.

(** The renderers and the overlay vanish under [eraseCalls]; the setters move
    outwards. *)
Create Rewrite HintDb erase.
#[local] Hint Rewrite eraseCalls_overlayIssue eraseCalls_renderMainCanvas
  eraseCalls_drawLive eraseCalls_idem eraseCalls_set_gestureMode
  eraseCalls_pushPoint eraseCalls_set_currentPathRef : erase.

Lemma eraseCalls_finishPath st :
  eraseCalls (finishPath st) = eraseCalls (finishPath (eraseCalls st)).
Proof.
  unfold finishPath. simpl.
  destruct (0 <? length (currentPathRef st)).
  - rewrite !eraseCalls_renderMainCanvas.
    destruct st as [bc bw gm an cr wr cv ov ps cp]; destruct cv, ov; reflexivity.
  - symmetry. apply eraseCalls_idem.
Qed.

(** [finishPath] cannot tell two states apart that differ in the recorded
    calls only. *)
Lemma finishPath_erase_cong a b :
  eraseCalls a = eraseCalls b ->
  eraseCalls (finishPath a) = eraseCalls (finishPath b).
Proof.
  intros H. rewrite (eraseCalls_finishPath a), (eraseCalls_finishPath b), H.
  reflexivity.
Qed.

(** Two states with the same erasure agree on whether the canvases are
    mounted and on the overlay's size. *)
Lemma erase_same_mounted a b :
  eraseCalls a = eraseCalls b ->
  mounted a = mounted b /\ overlaySize a = overlaySize b.
Proof.
  intros H.
  pose proof (f_equal overlayCanvasRef H) as Ho.
  pose proof (f_equal canvasRef H) as Hc.
  unfold mounted, overlaySize. simpl in Ho, Hc.
  destruct (overlayCanvasRef a) as [oa|], (overlayCanvasRef b) as [ob|];
    try discriminate;
    destruct (canvasRef a) as [ca|], (canvasRef b) as [cb|];
    try discriminate; simpl; try (split; reflexivity);
    injection Ho as Hw Hh; rewrite Hw, Hh; split; reflexivity.
Qed.

(** * What [finishPath] does to the refs *)

Lemma finishPath_empty st :
  currentPathRef st = [] -> finishPath st = st.
Proof. intros H. unfold finishPath. rewrite H. reflexivity. Qed.

Lemma finishPath_nonempty st :
  currentPathRef st <> [] ->
  eraseCalls (finishPath st) =
  eraseCalls
    (set_currentPathRef []
       (set_pathsRef
          (pathsRef st
           ++ [mkDrawingPath (currentPathRef st) (colorRef st) (widthRef st)])
          st)).
Proof.
  intros H. unfold finishPath.
  destruct (currentPathRef st) as [|p pts] eqn:E; [congruence|].
  simpl. rewrite eraseCalls_renderMainCanvas. reflexivity.
Qed.

(** Split on the guard of [finishPath]: with an empty live path the call
    disappears from the goal; otherwise [H] describes its result up to the
    drawing calls. *)
Ltac finishPath_cases st H :=
  let E := fresh "E" in
  destruct (currentPathRef st) as [|? ?] eqn:E;
  [ rewrite (finishPath_empty st E)
  | assert (H : currentPathRef st <> []) by (rewrite E; discriminate);
    apply finishPath_nonempty in H ].

Lemma currentPathRef_finishPath st : currentPathRef (finishPath st) = [].
Proof.
  finishPath_cases st H; [assumption|exact (f_equal currentPathRef H)].
Qed.

Lemma pathsRef_finishPath st :
  pathsRef (finishPath st) =
  match currentPathRef st with
  | [] => pathsRef st
  | _ :: _ =>
      pathsRef st
      ++ [mkDrawingPath (currentPathRef st) (colorRef st) (widthRef st)]
  end.
Proof.
  finishPath_cases st H; [reflexivity|].
  apply (f_equal pathsRef) in H. simpl in H. rewrite H, E. reflexivity.
Qed.

Lemma pathsRef_finishPath_nonempty st :
  currentPathRef st <> [] ->
  pathsRef (finishPath st) =
  pathsRef st ++ [mkDrawingPath (currentPathRef st) (colorRef st) (widthRef st)].
Proof.
  intros H. rewrite pathsRef_finishPath.
  destruct (currentPathRef st); [congruence|reflexivity].
Qed.

Lemma gestureMode_finishPath st : gestureMode (finishPath st) = gestureMode st.
Proof.
  finishPath_cases st H; [reflexivity|exact (f_equal gestureMode H)].
Qed.

Lemma style_finishPath st :
  colorRef (finishPath st) = colorRef st /\ widthRef (finishPath st) = widthRef st.
Proof.
  finishPath_cases st H; [split; reflexivity|].
  split; [exact (f_equal colorRef H)|exact (f_equal widthRef H)].
Qed.

Lemma finishPath_mounted st :
  mounted (finishPath st) = mounted st
  /\ overlaySize (finishPath st) = overlaySize st.
Proof.
  finishPath_cases st H; [split; reflexivity|].
  exact (erase_same_mounted _ _ H).
Qed.

Lemma clearCanvas_refs st :
  pathsRef (clearCanvas st) = [] /\ currentPathRef (clearCanvas st) = [].
Proof.
  unfold clearCanvas, renderMainCanvas. simpl.
  destruct (canvasRef st); split; reflexivity.
Qed.

(** * What [onResults] does to the refs *)

Lemma onResults_unmounted results st :
  mounted st = false -> onResults results st = Returned st.
Proof.
  unfold mounted, onResults.
  destruct (overlayCanvasRef st), (canvasRef st); try discriminate; reflexivity.
Qed.

(** A hand that lacks one of the landmarks 6, 8, 12 makes the callback
    throw before it touches a ref. *)
Lemma onResults_incomplete_hand results st landmarks :
  frameHand results = Some landmarks -> handComplete landmarks = false ->
  eraseCalls (stateOf (onResults results st)) = eraseCalls st.
Proof.
  unfold frameHand, handComplete, onResults. intros Hh Hc.
  destruct (overlayCanvasRef st) as [ov|] eqn:Hov; [|reflexivity].
  destruct (canvasRef st) as [cv|] eqn:Hcv; [|reflexivity].
  destruct (multiHandLandmarks results) as [[|h hs]|]; try discriminate.
  injection Hh as ->.
  destruct (nth_error landmarks 8), (nth_error landmarks 12),
           (nth_error landmarks 6); try discriminate; simpl;
    autorewrite with erase; reflexivity.
Qed.

Lemma handMode_complete landmarks :
  handComplete landmarks = true -> exists m, handMode landmarks = Some m.
Proof.
  unfold handComplete, handMode.
  destruct (nth_error landmarks 8); [|discriminate].
  destruct (nth_error landmarks 12); [|discriminate].
  destruct (nth_error landmarks 6); [|discriminate].
  eauto.
Qed.

Lemma frameMode_complete results landmarks m :
  frameHand results = Some landmarks -> frameMode results = Some m ->
  exists indexTip middleTip indexPip,
    nth_error landmarks 8 = Some indexTip /\
    nth_error landmarks 12 = Some middleTip /\
    nth_error landmarks 6 = Some indexPip /\
    m = (if isIndexExtended indexTip indexPip
            && negb (isMiddleExtended middleTip indexPip)
         then DRAWING
         else if isIndexExtended indexTip indexPip
                 && isMiddleExtended middleTip indexPip
         then HOVERING
         else IDLE).
Proof.
  unfold frameMode, handMode. intros Hh. rewrite Hh.
  destruct (nth_error landmarks 8) as [it|]; [|discriminate].
  destruct (nth_error landmarks 12) as [mt|]; [|discriminate].
  destruct (nth_error landmarks 6) as [ip|]; [|discriminate].
  intros H. injection H as <-. eauto 8.
Qed.

Lemma frameMode_drawing_hand results :
  frameMode results = Some DRAWING ->
  exists landmarks, frameHand results = Some landmarks.
Proof.
  unfold frameMode. destruct (frameHand results); [eauto|discriminate].
Qed.

Lemma mounted_overlay st :
  mounted st = true -> exists overlay, overlayCanvasRef st = Some overlay.
Proof.
  unfold mounted. destruct (overlayCanvasRef st); [eauto|discriminate].
Qed.

Lemma mounted_overlaySize st :
  mounted st = true -> exists W H, overlaySize st = Some (W, H).
Proof.
  unfold mounted, overlaySize.
  destruct (overlayCanvasRef st); [simpl; eauto|discriminate].
Qed.

(** One frame processed by a mounted component. *)
Section ProcessedFrame.

Variable st : State.
Hypothesis Hmounted : mounted st = true.
Variable results : Results.

Lemma onResults_no_hand :
  frameHand results = None ->
  exists st',
    onResults results st = Returned st' /\
    eraseCalls st' = eraseCalls (finishPath (set_gestureMode IDLE st)).
Proof.
  revert Hmounted. unfold mounted, frameHand, onResults.
  destruct (overlayCanvasRef st) as [ov|] eqn:Hov; [|discriminate].
  destruct (canvasRef st) as [cv|] eqn:Hcv; [|discriminate].
  intros _ Hh.
  destruct (multiHandLandmarks results) as [[|h hs]|]; try discriminate;
    (eexists; split; [reflexivity|]);
    rewrite eraseCalls_overlayIssue; apply finishPath_erase_cong;
    autorewrite with erase; reflexivity.
Qed.

Lemma onResults_hand landmarks indexTip middleTip indexPip overlay :
  overlayCanvasRef st = Some overlay ->
  frameHand results = Some landmarks ->
  nth_error landmarks 8 = Some indexTip ->
  nth_error landmarks 12 = Some middleTip ->
  nth_error landmarks 6 = Some indexPip ->
  exists st',
    onResults results st = Returned st' /\
    eraseCalls st' =
    eraseCalls
      (if isIndexExtended indexTip indexPip
          && negb (isMiddleExtended middleTip indexPip)
       then pushPoint (cursorOf indexTip (canvas_width overlay)
                                (canvas_height overlay))
                      (set_gestureMode DRAWING st)
       else if isIndexExtended indexTip indexPip
               && isMiddleExtended middleTip indexPip
       then finishPath (set_gestureMode HOVERING st)
       else finishPath (set_gestureMode IDLE st)).
Proof.
  revert Hmounted. unfold mounted, frameHand, onResults.
  intros Hm Hov. rewrite Hov in *.
  destruct (canvasRef st) as [cv|] eqn:Hcv; [|discriminate].
  destruct (multiHandLandmarks results) as [[|h hs]|]; try discriminate.
  intros Hh H8 H12 H6. injection Hh as ->.
  rewrite H8, H12, H6.
  eexists; split; [reflexivity|].
  rewrite !eraseCalls_overlayIssue.
  destruct (isIndexExtended indexTip indexPip),
           (isMiddleExtended middleTip indexPip); simpl;
    rewrite ?eraseCalls_drawLive; try apply finishPath_erase_cong;
    autorewrite with erase; reflexivity.
Qed.

Lemma onResults_returns m :
  frameMode results = Some m ->
  exists st', onResults results st = Returned st'.
Proof.
  intros Hf.
  destruct (frameHand results) as [landmarks|] eqn:Hh.
  - destruct (frameMode_complete _ _ _ Hh Hf)
      as (it & mt & ip & H8 & H12 & H6 & _).
    destruct (mounted_overlay _ Hmounted) as [ov Hov].
    destruct (onResults_hand _ _ _ _ _ Hov Hh H8 H12 H6) as [st' [R _]].
    eauto.
  - destruct (onResults_no_hand Hh) as [st' [R _]]. eauto.
Qed.

(** A [DRAWING] frame pushes the fingertip position. *)
Lemma step_frame_drawing W H :
  overlaySize st = Some (W, H) ->
  frameMode results = Some DRAWING ->
  exists p,
    frameCursor results W H = Some p /\
    eraseCalls (step st (Frame results)) =
    eraseCalls (pushPoint p (set_gestureMode DRAWING st)).
Proof.
  intros Hs Hd.
  destruct (frameMode_drawing_hand _ Hd) as [landmarks Hh].
  destruct (frameMode_complete _ _ _ Hh Hd)
    as (it & mt & ip & H8 & H12 & H6 & E).
  unfold overlaySize in Hs.
  destruct (overlayCanvasRef st) as [ov|] eqn:Hov; [|discriminate].
  simpl in Hs. injection Hs as <- <-.
  destruct (onResults_hand _ _ _ _ _ Hov Hh H8 H12 H6) as [st' [R HE]].
  exists (cursorOf it (canvas_width ov) (canvas_height ov)). split.
  - unfold frameCursor. rewrite Hh, H8. reflexivity.
  - simpl. rewrite R. simpl. rewrite HE.
    destruct (isIndexExtended it ip && negb (isMiddleExtended mt ip));
      [reflexivity|].
    destruct (isIndexExtended it ip && isMiddleExtended mt ip); discriminate.
Qed.

(** A frame of any other mode finishes the path. *)
Lemma step_frame_other m :
  frameMode results = Some m -> m <> DRAWING ->
  eraseCalls (step st (Frame results)) =
  eraseCalls (finishPath (set_gestureMode m st)).
Proof.
  intros Hf Hn.
  destruct (frameHand results) as [landmarks|] eqn:Hh.
  - destruct (frameMode_complete _ _ _ Hh Hf)
      as (it & mt & ip & H8 & H12 & H6 & E).
    destruct (mounted_overlay _ Hmounted) as [ov Hov].
    destruct (onResults_hand _ _ _ _ _ Hov Hh H8 H12 H6) as [st' [R HE]].
    simpl. rewrite R. simpl. rewrite HE.
    destruct (isIndexExtended it ip && negb (isMiddleExtended mt ip));
      [congruence|].
    destruct (isIndexExtended it ip && isMiddleExtended mt ip); subst m;
      reflexivity.
  - unfold frameMode in Hf. rewrite Hh in Hf. injection Hf as <-.
    destruct (onResults_no_hand Hh) as [st' [R HE]].
    simpl. rewrite R. exact HE.
Qed.

(** The same two facts, ref by ref. *)
Lemma step_drawing_fields W H p :
  overlaySize st = Some (W, H) ->
  frameMode results = Some DRAWING -> frameCursor results W H = Some p ->
  let st' := step st (Frame results) in
  mounted st' = true /\ overlaySize st' = Some (W, H)
  /\ gestureMode st' = DRAWING
  /\ colorRef st' = colorRef st /\ widthRef st' = widthRef st
  /\ pathsRef st' = pathsRef st
  /\ currentPathRef st' = currentPathRef st ++ [p].
Proof.
  intros Hs Hd Hp st'.
  destruct (step_frame_drawing _ _ Hs Hd) as [q [Hq E]].
  fold st' in E. rewrite Hp in Hq. injection Hq as <-.
  destruct (erase_same_mounted _ _ E) as [Hm' Hs'].
  split; [rewrite Hm'; exact Hmounted|]. split; [rewrite Hs'; exact Hs|].
  split; [exact (f_equal gestureMode E)|].
  split; [exact (f_equal colorRef E)|].
  split; [exact (f_equal widthRef E)|].
  split; [exact (f_equal pathsRef E)|exact (f_equal currentPathRef E)].
Qed.

Lemma step_other_fields m :
  frameMode results = Some m -> m <> DRAWING ->
  let st' := step st (Frame results) in
  mounted st' = true /\ overlaySize st' = overlaySize st
  /\ gestureMode st' = m
  /\ colorRef st' = colorRef st /\ widthRef st' = widthRef st
  /\ pathsRef st' =
     match currentPathRef st with
     | [] => pathsRef st
     | _ :: _ =>
         pathsRef st
         ++ [mkDrawingPath (currentPathRef st) (colorRef st) (widthRef st)]
     end
  /\ currentPathRef st' = [].
Proof.
  intros Hf Hn st'.
  pose proof (step_frame_other _ Hf Hn) as E. fold st' in E.
  destruct (erase_same_mounted _ _ E) as [Hm' Hs'].
  destruct (finishPath_mounted (set_gestureMode m st)) as [Hm2 Hs2].
  destruct (style_finishPath (set_gestureMode m st)) as [Hc Hw].
  split; [rewrite Hm', Hm2; exact Hmounted|].
  split; [rewrite Hs', Hs2; reflexivity|].
  split.
  { transitivity (gestureMode (finishPath (set_gestureMode m st)));
      [exact (f_equal gestureMode E)
      |exact (gestureMode_finishPath (set_gestureMode m st))]. }
  split.
  { transitivity (colorRef (finishPath (set_gestureMode m st)));
      [exact (f_equal colorRef E)|exact Hc]. }
  split.
  { transitivity (widthRef (finishPath (set_gestureMode m st)));
      [exact (f_equal widthRef E)|exact Hw]. }
  split.
  - transitivity (pathsRef (finishPath (set_gestureMode m st)));
      [exact (f_equal pathsRef E)
      |exact (pathsRef_finishPath (set_gestureMode m st))].
  - transitivity (currentPathRef (finishPath (set_gestureMode m st)));
      [exact (f_equal currentPathRef E)
      |exact (currentPathRef_finishPath (set_gestureMode m st))].
Qed.

End ProcessedFrame.

(** Every call of [onResults] is one of three things for the refs: nothing,
    a push under [DRAWING], or a [finishPath] under another mode. *)
Lemma step_frame_cases st results :
  eraseCalls (step st (Frame results)) = eraseCalls st
  \/ (exists p,
         eraseCalls (step st (Frame results)) =
         eraseCalls (pushPoint p (set_gestureMode DRAWING st)))
  \/ (exists m,
         m <> DRAWING /\
         eraseCalls (step st (Frame results)) =
         eraseCalls (finishPath (set_gestureMode m st))).
Proof.
  destruct (mounted st) eqn:Hm.
  - destruct (frameHand results) as [landmarks|] eqn:Hh.
    + destruct (handComplete landmarks) eqn:Hc.
      * destruct (handMode_complete _ Hc) as [m Hmode].
        assert (Hf : frameMode results = Some m)
          by (unfold frameMode; rewrite Hh; exact Hmode).
        destruct (mounted_overlaySize _ Hm) as (W & H & Hs).
        destruct m.
        -- destruct (step_frame_drawing _ Hm _ _ _ Hs Hf) as [p [_ E]].
           right; left; eauto.
        -- right; right; exists HOVERING; split; [discriminate|].
           apply step_frame_other; [assumption|assumption|discriminate].
        -- right; right; exists IDLE; split; [discriminate|].
           apply step_frame_other; [assumption|assumption|discriminate].
      * left. simpl. eapply onResults_incomplete_hand; eassumption.
    + right; right; exists IDLE; split; [discriminate|].
      apply step_frame_other; [assumption| |discriminate].
      unfold frameMode. rewrite Hh. reflexivity.
  - left. simpl. rewrite onResults_unmounted by assumption. reflexivity.
Qed.

(** * The gesture classifier *)

(** C1.  On a frame that carries a hand (with its landmarks 6, 8 and 12),
    [onResults] returns and the mode it sets is [DRAWING] when
    [indexTip.y < indexPip.y] and [middleTip.y >= indexPip.y], [HOVERING]
    when [indexTip.y < indexPip.y] and [middleTip.y < indexPip.y], and [IDLE]
    in every other case, the landmark coordinates being numbers (a
    [middleTip.y] that is not NaN); on a frame without a hand the mode it
    sets is [IDLE].  The comparisons are those of binary64. *)
Theorem classifier_modes (st : State) (results : Results) :
  mounted st = true ->
  (forall landmarks indexTip middleTip indexPip,
      frameHand results = Some landmarks ->
      nth_error landmarks 8 = Some indexTip ->
      nth_error landmarks 12 = Some middleTip ->
      nth_error landmarks 6 = Some indexPip ->
      exists st',
        onResults results st = Returned st' /\
        ((lm_y indexTip <? lm_y indexPip)%float = true ->
         (lm_y indexPip <=? lm_y middleTip)%float = true ->
         gestureMode st' = DRAWING) /\
        ((lm_y indexTip <? lm_y indexPip)%float = true ->
         (lm_y middleTip <? lm_y indexPip)%float = true ->
         gestureMode st' = HOVERING) /\
        (is_nan (lm_y middleTip) = false ->
         ((lm_y indexTip <? lm_y indexPip)
          && (lm_y indexPip <=? lm_y middleTip))%float = false ->
         ((lm_y indexTip <? lm_y indexPip)
          && (lm_y middleTip <? lm_y indexPip))%float = false ->
         gestureMode st' = IDLE))
  /\ (frameHand results = None ->
      exists st', onResults results st = Returned st' /\ gestureMode st' = IDLE).
Proof.
  intros Hm. split.
  - intros landmarks indexTip middleTip indexPip Hh H8 H12 H6.
    destruct (mounted_overlay _ Hm) as [ov Hov].
    destruct (onResults_hand _ Hm _ _ _ _ _ _ Hov Hh H8 H12 H6) as [st' [E HE]].
    exists st'. split; [exact E|].
    apply (f_equal gestureMode) in HE. simpl in HE.
    unfold isIndexExtended, isMiddleExtended in HE.
    repeat split.
    + intros Hi Hge. apply NumberOrder.leb_true_ltb_false in Hge.
      rewrite Hi, Hge in HE. exact HE.
    + intros Hi Hmid. rewrite Hi, Hmid in HE. simpl in HE.
      rewrite HE. apply gestureMode_finishPath.
    + intros Hnan Hd Hh'.
      destruct (lm_y indexTip <? lm_y indexPip)%float eqn:Hi; simpl in *.
      * pose proof (NumberOrder.ltb_true_not_nan_r _ _ Hi) as Hpip.
        rewrite (NumberOrder.leb_negb_ltb _ _ Hnan Hpip) in Hd.
        rewrite Hh' in Hd. discriminate.
      * rewrite HE. apply gestureMode_finishPath.
  - intros Hh.
    destruct (onResults_no_hand _ Hm _ Hh) as [st' [E HE]].
    exists st'. split; [exact E|].
    apply (f_equal gestureMode) in HE. simpl in HE.
    rewrite HE. apply gestureMode_finishPath.
Qed.

Lemma classifier_modes_witness :
  (exists st',
      onResults (frameOf (mkLandmark 0.5 0.6 0) (mkLandmark 0.3 0.2 0)
                         (mkLandmark 0.5 0.7 0)) sampleState = Returned st'
      /\ gestureMode st' = DRAWING)
  /\ (exists st', onResults (hoveringFrame 0.3 0.2) sampleState = Returned st'
                  /\ gestureMode st' = HOVERING)
  /\ (exists st', onResults idleFrame sampleState = Returned st'
                  /\ gestureMode st' = IDLE)
  /\ (exists st', onResults noHand sampleState = Returned st'
                  /\ gestureMode st' = IDLE).
Proof.
  split; [|split; [|split]].
  - destruct (classifier_modes sampleState
                (frameOf (mkLandmark 0.5 0.6 0) (mkLandmark 0.3 0.2 0)
                         (mkLandmark 0.5 0.7 0)) eq_refl) as [H _].
    destruct (H _ (mkLandmark 0.3 0.2 0) (mkLandmark 0.5 0.7 0)
                (mkLandmark 0.5 0.6 0) eq_refl eq_refl eq_refl eq_refl)
      as [st' [E [Hd _]]].
    exists st'. split; [exact E|]. apply Hd; reflexivity.
  - destruct (classifier_modes sampleState (hoveringFrame 0.3 0.2) eq_refl)
      as [H _].
    destruct (H _ (mkLandmark 0.3 0.2 0) (mkLandmark 0.5 0.5 0)
                (mkLandmark 0.5 0.9 0) eq_refl eq_refl eq_refl eq_refl)
      as [st' [E [_ [Hh _]]]].
    exists st'. split; [exact E|]. apply Hh; reflexivity.
  - destruct (classifier_modes sampleState idleFrame eq_refl) as [H _].
    destruct (H _ (mkLandmark 0.5 0.95 0) (mkLandmark 0.5 0.95 0)
                (mkLandmark 0.5 0.9 0) eq_refl eq_refl eq_refl eq_refl)
      as [st' [E [_ [_ Hi]]]].
    exists st'. split; [exact E|]. apply Hi; reflexivity.
  - destruct (classifier_modes sampleState noHand eq_refl) as [_ H].
    apply H. reflexivity.
Defined.

(** The restriction to a [middleTip.y] that is a number is needed for the
    [IDLE] case only: every comparison with NaN is false, so a NaN there
    counts as "middle finger not raised", and with the index finger raised
    the frame is a [DRAWING] frame. *)
Remark nan_middle_tip_is_not_raised :
  gestureMode
    (stateOf (onResults (frameOf (mkLandmark 0.5 0.6 0) (mkLandmark 0.3 0.2 0)
                                 (mkLandmark 0.5 nan 0)) sampleState))
  = DRAWING.
Proof. vm_compute. reflexivity. Qed.

(** * The drawing surface holds no empty stroke *)

Lemma strokeSizes_erase st : strokeSizes (eraseCalls st) = strokeSizes st.
Proof. reflexivity. Qed.

Lemma strokeSizes_finishPath st :
  Forall (fun n => 1 <= n) (strokeSizes st) ->
  Forall (fun n => 1 <= n) (strokeSizes (finishPath st)).
Proof.
  unfold strokeSizes. rewrite pathsRef_finishPath.
  destruct (currentPathRef st) as [|p pts]; [auto|].
  intros H. rewrite map_app. apply Forall_app. split; [exact H|].
  constructor; [simpl; lia|constructor].
Qed.

Lemma strokeSizes_step st e :
  Forall (fun n => 1 <= n) (strokeSizes st) ->
  Forall (fun n => 1 <= n) (strokeSizes (step st e)).
Proof.
  intros H. destruct e as [results|c|w|].
  - rewrite <- strokeSizes_erase.
    destruct (step_frame_cases st results) as [E|[[p E]|[m [_ E]]]]; rewrite E.
    + exact H.
    + exact H.
    + rewrite strokeSizes_erase. apply strokeSizes_finishPath. exact H.
  - exact H.
  - exact H.
  - change (step st ClearCanvas) with (clearCanvas st).
    unfold strokeSizes. rewrite (proj1 (clearCanvas_refs st)). constructor.
Qed.

Lemma strokeSizes_run es : forall st,
  Forall (fun n => 1 <= n) (strokeSizes st) ->
  Forall (fun n => 1 <= n) (strokeSizes (run es st)).
Proof.
  induction es as [|e es IH]; intros st H; [exact H|].
  simpl. apply IH. apply strokeSizes_step. exact H.
Qed.

(** C2, amended.  Whatever events reach a state and whatever
    events follow, every stroke on the drawing surface has at least one
    point: [finishPath] appends the live path whenever it is not empty. *)
Theorem surface_strokes_nonempty (st : State) (es : list Event) :
  reachable st ->
  Forall (fun path => 1 <= length (points path)) (pathsRef (run es st)).
Proof.
  intros Hr.
  assert (H : Forall (fun n => 1 <= n) (strokeSizes (run es st))).
  { apply strokeSizes_run. induction Hr.
    - constructor.
    - apply strokeSizes_step. assumption. }
  unfold strokeSizes in H. rewrite Forall_map in H. exact H.
Qed.

Lemma surface_strokes_nonempty_witness :
  Forall (fun path => 1 <= length (points path))
         (pathsRef (run [Frame (drawingFrame 0.6875 0.3125); Frame idleFrame]
                        smallState)).
Proof.
  apply (surface_strokes_nonempty smallState
           [Frame (drawingFrame 0.6875 0.3125); Frame idleFrame]).
  apply reachable_init.
Defined.

(** C2 as stated (every stroke on the surface has two points or more) does
    not hold: one [DRAWING] frame followed by an [IDLE] frame puts a stroke
    of a single point on the surface. *)
Lemma single_tap_stroke_on_surface :
  pathsRef (run [Frame (drawingFrame 0.6875 0.3125); Frame idleFrame] smallState)
  = [mkDrawingPath [mkPoint 5 5] "#ffffff" 5]
  /\ ~ (forall st es,
          reachable st ->
          Forall (fun path => 2 <= length (points path)) (pathsRef (run es st))).
Proof.
  split; [vm_compute; reflexivity|].
  intros H.
  specialize (H smallState
                [Frame (drawingFrame 0.6875 0.3125); Frame idleFrame]
                (reachable_init _ _)).
  vm_compute in H. inversion H as [|? ? Hlen _]. lia.
Qed.

(** * Accumulating and finishing a stroke *)

(** A run of [DRAWING] frames pushes the fingertip positions, in order. *)
Lemma drawing_frames_run frames : forall st W H,
  mounted st = true -> overlaySize st = Some (W, H) ->
  Forall (fun r => frameMode r = Some DRAWING) frames ->
  exists pts,
    map Some pts = map (fun r => frameCursor r W H) frames /\
    eraseCalls (run (map Frame frames) st) =
    eraseCalls (set_currentPathRef (currentPathRef st ++ pts)
                  (match frames with
                   | [] => st
                   | _ :: _ => set_gestureMode DRAWING st
                   end)).
Proof.
  induction frames as [|r rs IH]; intros st W H Hm Hs Hall.
  - exists []. split; [reflexivity|]. simpl. rewrite app_nil_r.
    destruct st; reflexivity.
  - inversion Hall as [|? ? Hr Hrs]; subst.
    destruct (step_frame_drawing _ Hm _ _ _ Hs Hr) as [p [Hp E1]].
    destruct (erase_same_mounted _ _ E1) as [Hm1 Hs1].
    change (mounted (pushPoint p (set_gestureMode DRAWING st)))
      with (mounted st) in Hm1.
    change (overlaySize (pushPoint p (set_gestureMode DRAWING st)))
      with (overlaySize st) in Hs1.
    rewrite Hm in Hm1. rewrite Hs in Hs1.
    destruct (IH _ _ _ Hm1 Hs1 Hrs) as [pts [Hpts E]].
    exists (p :: pts). split.
    + simpl. rewrite Hp, Hpts. reflexivity.
    + change (run (map Frame (r :: rs)) st)
        with (run (map Frame rs) (step st (Frame r))).
      rewrite E.
      pose proof (f_equal currentPathRef E1) as Hcp.
      change (currentPathRef (step st (Frame r)) = currentPathRef st ++ [p])
        in Hcp.
      rewrite Hcp, <- app_assoc.
      change ([p] ++ pts) with (p :: pts).
      rewrite !eraseCalls_set_currentPathRef.
      assert (Hg : eraseCalls
                     (match rs with
                      | [] => step st (Frame r)
                      | _ :: _ => set_gestureMode DRAWING (step st (Frame r))
                      end)
                   = eraseCalls (pushPoint p (set_gestureMode DRAWING st))).
      { destruct rs; [exact E1|].
        rewrite eraseCalls_set_gestureMode, E1. reflexivity. }
      rewrite Hg. reflexivity.
Qed.

(** C3.  From a state with an empty live path, N >= 1 consecutive [DRAWING]
    frames leave a live path of N points (the fingertip positions, in
    order) and the surface untouched; the next frame of another mode appends
    exactly one stroke, made of those N points, and empties the live path. *)
Theorem drawing_run_then_finish
        (st : State) (frames : list Results) (next : Results)
        (m : GestureMode) (W H : number) :
  mounted st = true -> overlaySize st = Some (W, H) ->
  currentPathRef st = [] ->
  frames <> [] ->
  Forall (fun r => frameMode r = Some DRAWING) frames ->
  frameMode next = Some m -> m <> DRAWING ->
  let st1 := run (map Frame frames) st in
  let st2 := step st1 (Frame next) in
  length (currentPathRef st1) = length frames
  /\ map Some (currentPathRef st1) = map (fun r => frameCursor r W H) frames
  /\ pathsRef st1 = pathsRef st
  /\ (exists stroke,
         pathsRef st2 = pathsRef st ++ [stroke]
         /\ points stroke = currentPathRef st1
         /\ length (points stroke) = length frames)
  /\ currentPathRef st2 = [].
Proof.
  intros Hm Hs Hcp Hne Hall Hnext Hnd st1 st2.
  destruct (drawing_frames_run frames st W H Hm Hs Hall) as [pts [Hpts E]].
  fold st1 in E. rewrite Hcp in E. simpl in E.
  pose proof (f_equal currentPathRef E) as E1. simpl in E1.
  assert (Hlen : length (currentPathRef st1) = length frames).
  { rewrite E1. rewrite <- (length_map Some), Hpts. apply length_map. }
  assert (Hps : pathsRef st1 = pathsRef st).
  { pose proof (f_equal pathsRef E) as E2. simpl in E2. rewrite E2.
    destruct frames; reflexivity. }
  assert (Hm1 : mounted st1 = true).
  { rewrite (proj1 (erase_same_mounted _ _ E)).
    destruct frames; exact Hm. }
  pose proof (step_frame_other st1 Hm1 next m Hnext Hnd) as E3. fold st2 in E3.
  split; [exact Hlen|]. split; [rewrite E1; exact Hpts|]. split; [exact Hps|].
  split.
  - exists (mkDrawingPath (currentPathRef st1) (colorRef st1) (widthRef st1)).
    split; [|split; [reflexivity|exact Hlen]].
    pose proof (f_equal pathsRef E3) as E4. simpl in E4.
    rewrite E4, pathsRef_finishPath. simpl.
    destruct (currentPathRef st1) as [|q qs] eqn:Hq.
    + destruct frames; [congruence|discriminate].
    + rewrite Hps. reflexivity.
  - pose proof (f_equal currentPathRef E3) as E4. simpl in E4.
    rewrite E4. apply currentPathRef_finishPath.
Qed.

Lemma drawing_run_then_finish_witness :
  let st1 :=
    run (map Frame [drawingFrame 0.625 0.375; drawingFrame 0.5625 0.4375])
        smallState in
  let st2 := step st1 (Frame (hoveringFrame 0.5 0.25)) in
  length (currentPathRef st1)
  = length [drawingFrame 0.625 0.375; drawingFrame 0.5625 0.4375]
  /\ map Some (currentPathRef st1)
     = map (fun r => frameCursor r 16 16)
           [drawingFrame 0.625 0.375; drawingFrame 0.5625 0.4375]
  /\ pathsRef st1 = pathsRef smallState
  /\ (exists stroke,
         pathsRef st2 = pathsRef smallState ++ [stroke]
         /\ points stroke = currentPathRef st1
         /\ length (points stroke)
            = length [drawingFrame 0.625 0.375; drawingFrame 0.5625 0.4375])
  /\ currentPathRef st2 = [].
Proof.
  apply (drawing_run_then_finish smallState
           [drawingFrame 0.625 0.375; drawingFrame 0.5625 0.4375]
           (hoveringFrame 0.5 0.25) HOVERING 16 16);
    try reflexivity; try discriminate.
  repeat constructor.
Defined.

(** * The tap-then-stroke scenario *)

(** C4.  From an empty surface and an empty live path, the frames
    [DRAWING@(5,5); IDLE; DRAWING@(6,6); DRAWING@(7,7); IDLE] leave exactly
    two strokes on the surface: the single point (5,5), then the two points
    (6,6) and (7,7). *)
Theorem scenario_two_strokes
        (st : State) (f1 f2 f3 f4 f5 : Results) (W H : number) :
  mounted st = true -> overlaySize st = Some (W, H) ->
  pathsRef st = [] -> currentPathRef st = [] ->
  frameMode f1 = Some DRAWING -> frameCursor f1 W H = Some (mkPoint 5 5) ->
  frameMode f2 = Some IDLE ->
  frameMode f3 = Some DRAWING -> frameCursor f3 W H = Some (mkPoint 6 6) ->
  frameMode f4 = Some DRAWING -> frameCursor f4 W H = Some (mkPoint 7 7) ->
  frameMode f5 = Some IDLE ->
  let st' := run [Frame f1; Frame f2; Frame f3; Frame f4; Frame f5] st in
  length (pathsRef st') = 2
  /\ map points (pathsRef st') = [[mkPoint 5 5]; [mkPoint 6 6; mkPoint 7 7]]
  /\ currentPathRef st' = [].
Proof.
  intros Hm Hs Hps Hcp M1 C1 M2 M3 C3 M4 C4 M5 st'.
  assert (Hidle : IDLE <> DRAWING) by discriminate.
  destruct (step_drawing_fields st Hm f1 W H _ Hs M1 C1)
    as (Hm1 & Hs1 & _ & _ & _ & Hp1 & Hc1).
  set (s1 := step st (Frame f1)) in *.
  destruct (step_other_fields s1 Hm1 f2 IDLE M2 Hidle)
    as (Hm2 & Hs2 & _ & _ & _ & Hp2 & Hc2).
  set (s2 := step s1 (Frame f2)) in *.
  rewrite Hs1 in Hs2.
  destruct (step_drawing_fields s2 Hm2 f3 W H _ Hs2 M3 C3)
    as (Hm3 & Hs3 & _ & _ & _ & Hp3 & Hc3).
  set (s3 := step s2 (Frame f3)) in *.
  destruct (step_drawing_fields s3 Hm3 f4 W H _ Hs3 M4 C4)
    as (Hm4 & Hs4 & _ & _ & _ & Hp4 & Hc4).
  set (s4 := step s3 (Frame f4)) in *.
  destruct (step_other_fields s4 Hm4 f5 IDLE M5 Hidle)
    as (_ & _ & _ & _ & _ & Hp5 & Hc5).
  change st' with (step s4 (Frame f5)).
  rewrite Hc1, Hcp in Hp2. cbn [app] in Hp2. rewrite Hp1, Hps in Hp2.
  rewrite Hc4, Hc3, Hc2 in Hp5. cbn [app] in Hp5.
  rewrite Hp4, Hp3, Hp2 in Hp5.
  rewrite Hp5, Hc5. repeat split.
Qed.

Lemma scenario_two_strokes_witness :
  let st' :=
    run [Frame (drawingFrame 0.6875 0.3125); Frame idleFrame;
         Frame (drawingFrame 0.625 0.375); Frame (drawingFrame 0.5625 0.4375);
         Frame idleFrame] smallState in
  length (pathsRef st') = 2
  /\ map points (pathsRef st') = [[mkPoint 5 5]; [mkPoint 6 6; mkPoint 7 7]]
  /\ currentPathRef st' = [].
Proof.
  apply (scenario_two_strokes smallState
           (drawingFrame 0.6875 0.3125) idleFrame
           (drawingFrame 0.625 0.375) (drawingFrame 0.5625 0.4375)
           idleFrame 16 16); reflexivity.
Defined.

(** * Style of a finished stroke *)

(** C5.  When a non-empty live path is finalized, by [finishPath] itself or
    by a frame of a mode other than [DRAWING], the appended stroke carries
    the colour and width that [colorRef] and [widthRef] hold at that moment;
    a colour or width picked while the stroke is in progress is therefore
    the style of the whole stroke, whatever the style was when its points
    were pushed. *)
Theorem stroke_style_at_finalization (st : State) :
  currentPathRef st <> [] ->
  pathsRef (finishPath st)
  = pathsRef st
    ++ [mkDrawingPath (currentPathRef st) (colorRef st) (widthRef st)]
  /\ (forall results m,
         mounted st = true -> frameMode results = Some m -> m <> DRAWING ->
         pathsRef (step st (Frame results))
         = pathsRef st
           ++ [mkDrawingPath (currentPathRef st) (colorRef st) (widthRef st)])
  /\ (forall c w,
         pathsRef (finishPath (step (step st (SetBrushColor c))
                                    (SetBrushWidth w)))
         = pathsRef st ++ [mkDrawingPath (currentPathRef st) c w]).
Proof.
  intros Hne. split; [|split].
  - apply pathsRef_finishPath_nonempty. exact Hne.
  - intros results m Hm Hf Hn.
    destruct (step_other_fields st Hm results m Hf Hn)
      as (_ & _ & _ & _ & _ & Hp & _).
    rewrite Hp. destruct (currentPathRef st); [congruence|reflexivity].
  - intros c w.
    exact (pathsRef_finishPath_nonempty
             (step (step st (SetBrushColor c)) (SetBrushWidth w)) Hne).
Qed.

Lemma stroke_style_at_finalization_witness :
  pathsRef (finishPath
              (step (step (step smallState
                                (Frame (drawingFrame 0.625 0.375)))
                          (SetBrushColor "#ef4444"))
                    (SetBrushWidth 12)))
  = [mkDrawingPath [mkPoint 6 6] "#ef4444" 12].
Proof.
  apply (proj2 (proj2 (stroke_style_at_finalization
                         (step smallState (Frame (drawingFrame 0.625 0.375)))
                         ltac:(vm_compute; discriminate)))
           "#ef4444"%string 12%float).
Defined.

(** * Leaving the drawing mode *)

(** C6.  A frame whose mode is not [DRAWING] (both fingers raised, a closed
    hand, or no hand at all) is processed to the end, sets that mode, and
    leaves the live path empty; a live path that was not empty has been
    appended to the surface as one stroke by then. *)
Theorem non_drawing_frame_finalizes
        (st : State) (results : Results) (m : GestureMode) :
  mounted st = true -> frameMode results = Some m -> m <> DRAWING ->
  exists st',
    onResults results st = Returned st'
    /\ gestureMode st' = m
    /\ currentPathRef st' = []
    /\ (currentPathRef st <> [] ->
        pathsRef st'
        = pathsRef st
          ++ [mkDrawingPath (currentPathRef st) (colorRef st) (widthRef st)]).
Proof.
  intros Hm Hf Hn.
  destruct (onResults_returns _ Hm _ _ Hf) as [st' R].
  destruct (step_other_fields st Hm results m Hf Hn)
    as (_ & _ & Hg & _ & _ & Hp & Hc).
  change (step st (Frame results)) with (stateOf (onResults results st)) in *.
  rewrite R in *. cbn [stateOf] in *.
  exists st'. repeat split; try assumption.
  intros Hne. rewrite Hp.
  destruct (currentPathRef st); [congruence|reflexivity].
Qed.

Lemma non_drawing_frame_finalizes_witness :
  exists st',
    onResults noHand (step smallState (Frame (drawingFrame 0.625 0.375)))
    = Returned st'
    /\ gestureMode st' = IDLE
    /\ currentPathRef st' = []
    /\ (currentPathRef (step smallState (Frame (drawingFrame 0.625 0.375)))
        <> [] ->
        pathsRef st'
        = pathsRef (step smallState (Frame (drawingFrame 0.625 0.375)))
          ++ [mkDrawingPath
                (currentPathRef
                   (step smallState (Frame (drawingFrame 0.625 0.375))))
                (colorRef (step smallState (Frame (drawingFrame 0.625 0.375))))
                (widthRef
                   (step smallState (Frame (drawingFrame 0.625 0.375))))]).
Proof.
  apply (non_drawing_frame_finalizes
           (step smallState (Frame (drawingFrame 0.625 0.375))) noHand IDLE).
  - vm_compute. reflexivity.
  - vm_compute. reflexivity.
  - discriminate.
Defined.

(** X7.  In every reachable state the live path is empty unless the mode
    is [DRAWING]: no event (a frame that is processed, dropped or throws, a
    brush change, Clear) leaves points behind under another mode. *)
Lemma live_path_only_while_drawing st :
  reachable st -> gestureMode st <> DRAWING -> currentPathRef st = [].
Proof.
  induction 1 as [canvas overlay|st e Hr IH]; [reflexivity|].
  destruct e as [results|c|w|].
  - destruct (step_frame_cases st results) as [E|[[p E]|[m [Hn E]]]].
    + intros Hg.
      assert (Hg' : gestureMode st <> DRAWING).
      { intros X. apply Hg. transitivity (gestureMode st);
          [exact (f_equal gestureMode E)|exact X]. }
      transitivity (currentPathRef st);
        [exact (f_equal currentPathRef E)|exact (IH Hg')].
    + intros Hg. exfalso. apply Hg. exact (f_equal gestureMode E).
    + intros _.
      transitivity (currentPathRef (finishPath (set_gestureMode m st)));
        [exact (f_equal currentPathRef E)
        |exact (currentPathRef_finishPath (set_gestureMode m st))].
  - exact IH.
  - exact IH.
  - intros _. exact (proj2 (clearCanvas_refs st)).
Qed.

(** * Reset *)

(** C7.  [clearCanvas] empties both the drawing surface and the live path,
    from any state; a mounted main canvas is cleared and nothing is drawn on
    it. *)
Theorem reset_clears_everything (st : State) :
  pathsRef (clearCanvas st) = []
  /\ currentPathRef (clearCanvas st) = []
  /\ canvasRef (clearCanvas st)
     = option_map
         (fun c => issue [ClearRect 0 0 (canvas_width c) (canvas_height c)] c)
         (canvasRef st).
Proof.
  unfold clearCanvas, renderMainCanvas.
  destruct st as [bc bw gm an cr wr cv ov ps cp]; destruct cv as [c|]; simpl;
    repeat split; reflexivity.
Qed.

(** * Finalizing nothing *)

(** C8.  [finishPath] on an empty live path changes nothing at all: the
    surface keeps its strokes, the live path stays empty, no call is issued
    on either canvas.  A frame of a mode other than [DRAWING] that arrives
    with an empty live path leaves the surface as it was. *)
Theorem finalize_empty_is_noop (st : State) :
  currentPathRef st = [] ->
  finishPath st = st
  /\ pathsRef (finishPath st) = pathsRef st
  /\ length (pathsRef (finishPath st)) = length (pathsRef st)
  /\ currentPathRef (finishPath st) = []
  /\ (forall results m,
         mounted st = true -> frameMode results = Some m -> m <> DRAWING ->
         pathsRef (step st (Frame results)) = pathsRef st
         /\ currentPathRef (step st (Frame results)) = []).
Proof.
  intros Hcp.
  assert (E : finishPath st = st) by (apply finishPath_empty; exact Hcp).
  rewrite E.
  split; [reflexivity|]. split; [reflexivity|]. split; [reflexivity|].
  split; [exact Hcp|].
  intros results m Hm Hf Hn.
  destruct (step_other_fields st Hm results m Hf Hn)
    as (_ & _ & _ & _ & _ & Hp & Hc).
  split; [|exact Hc].
  rewrite Hp, Hcp. reflexivity.
Qed.

Lemma finalize_empty_is_noop_witness :
  finishPath smallState = smallState
  /\ pathsRef (finishPath smallState) = pathsRef smallState
  /\ length (pathsRef (finishPath smallState)) = length (pathsRef smallState)
  /\ currentPathRef (finishPath smallState) = []
  /\ (forall results m,
         mounted smallState = true -> frameMode results = Some m ->
         m <> DRAWING ->
         pathsRef (step smallState (Frame results)) = pathsRef smallState
         /\ currentPathRef (step smallState (Frame results)) = []).
Proof.
  apply (finalize_empty_is_noop smallState). reflexivity.
Defined.

(** * The cursor *)

Lemma overlay_finishPath st :
  overlayCanvasRef (finishPath st) = overlayCanvasRef st.
Proof.
  unfold finishPath, renderMainCanvas.
  destruct (0 <? length (currentPathRef st)); [|reflexivity].
  simpl. destruct (canvasRef st); reflexivity.
Qed.

Lemma overlay_drawLive st :
  overlayCanvasRef (drawLive st) = overlayCanvasRef st.
Proof.
  unfold drawLive.
  destruct (canvasRef st); [|reflexivity].
  destruct (length (currentPathRef st) <? 2); [reflexivity|].
  destruct (nth_error _ _); [|reflexivity].
  destruct (nth_error _ _); reflexivity.
Qed.

Lemma style_drawLive st :
  colorRef (drawLive st) = colorRef st /\ widthRef (drawLive st) = widthRef st.
Proof.
  pose proof (eraseCalls_drawLive st) as E.
  split; [exact (f_equal colorRef E)|exact (f_equal widthRef E)].
Qed.

Lemma calls_overlayIssue cs st ov :
  overlayCanvasRef st = Some ov ->
  overlayCanvasRef (overlayIssue cs st)
  = Some (mkCanvas (canvas_width ov) (canvas_height ov) (calls ov ++ cs)).
Proof. intros H. unfold overlayIssue. simpl. rewrite H. reflexivity. Qed.

(** C9.  On a frame that carries a hand, the cursor circle is drawn on the
    overlay at x = [(1 - indexTip.x) * width] and y = [indexTip.y * height],
    the overlay canvas's dimensions, and a [DRAWING] frame pushes that very
    point; with [indexTip.x = 0.3] on a canvas 1280 wide the x coordinate is
    the binary64 value 896 exactly. *)
Theorem cursor_position
        (st : State) (overlay : Canvas) (results : Results)
        (landmarks : list Landmark) (indexTip middleTip indexPip : Landmark) :
  mounted st = true -> overlayCanvasRef st = Some overlay ->
  frameHand results = Some landmarks ->
  nth_error landmarks 8 = Some indexTip ->
  nth_error landmarks 12 = Some middleTip ->
  nth_error landmarks 6 = Some indexPip ->
  let W := canvas_width overlay in
  let H := canvas_height overlay in
  let cx := ((1 - lm_x indexTip) * W)%float in
  let cy := (lm_y indexTip * H)%float in
  exists st' overlay',
    onResults results st = Returned st'
    /\ overlayCanvasRef st' = Some overlay'
    /\ calls overlay'
       = calls overlay
         ++ [Save; ClearRect 0 0 W H; Translate W 0; Scale (-1) 1;
             DrawConnectors landmarks "#00FF00" 2;
             DrawLandmarks landmarks "#FF0000" 1 2;
             BeginPath; Arc cx cy (widthRef st + 2) 0 (2 * PI);
             SetFillStyle (colorRef st); Fill; Restore]
    /\ (gestureMode st' = DRAWING ->
        currentPathRef st' = currentPathRef st ++ [mkPoint cx cy])
    /\ (lm_x indexTip = 0.3%float -> W = 1280%float -> cx = 896%float).
Proof.
  intros Hm Hov Hh H8 H12 H6 W H cx cy.
  destruct (onResults_hand _ Hm _ _ _ _ _ _ Hov Hh H8 H12 H6) as [st' [R HE]].
  fold W H in HE. fold (cursorOf indexTip W H) in HE.
  assert (Hcalls :
    exists overlay',
      overlayCanvasRef st' = Some overlay'
      /\ calls overlay'
         = calls overlay
           ++ [Save; ClearRect 0 0 W H; Translate W 0; Scale (-1) 1;
               DrawConnectors landmarks "#00FF00" 2;
               DrawLandmarks landmarks "#FF0000" 1 2;
               BeginPath; Arc cx cy (widthRef st + 2) 0 (2 * PI);
               SetFillStyle (colorRef st); Fill; Restore]).
  { revert R. unfold onResults, mounted in *. rewrite Hov in *.
    destruct (canvasRef st) as [cv|] eqn:Hcv; [|discriminate].
    unfold frameHand in Hh.
    destruct (multiHandLandmarks results) as [[|h hs]|]; try discriminate.
    injection Hh as ->. rewrite H8, H12, H6.
    fold W H cx cy.
    set (st1 := overlayIssue [DrawConnectors landmarks "#00FF00" 2;
                              DrawLandmarks landmarks "#FF0000" 1 2]
                  (overlayIssue [Save; ClearRect 0 0 W H; Translate W 0;
                                 Scale (-1) 1] st)).
    set (st2 := if isIndexExtended indexTip indexPip
                   && negb (isMiddleExtended middleTip indexPip)
                then drawLive (pushPoint (mkPoint cx cy)
                                         (set_gestureMode DRAWING st1))
                else if isIndexExtended indexTip indexPip
                        && isMiddleExtended middleTip indexPip
                then finishPath (set_gestureMode HOVERING st1)
                else finishPath (set_gestureMode IDLE st1)).
    assert (H1 : overlayCanvasRef st1
                 = Some (mkCanvas W H
                           ((calls overlay
                             ++ [Save; ClearRect 0 0 W H; Translate W 0;
                                 Scale (-1) 1])
                            ++ [DrawConnectors landmarks "#00FF00" 2;
                                DrawLandmarks landmarks "#FF0000" 1 2]))).
    { exact (calls_overlayIssue _ _ _ (calls_overlayIssue _ _ _ Hov)). }
    assert (H2 : overlayCanvasRef st2 = overlayCanvasRef st1
                 /\ colorRef st2 = colorRef st /\ widthRef st2 = widthRef st).
    { unfold st2.
      destruct (isIndexExtended indexTip indexPip
                && negb (isMiddleExtended middleTip indexPip)).
      - rewrite overlay_drawLive.
        destruct (style_drawLive (pushPoint (mkPoint cx cy)
                                    (set_gestureMode DRAWING st1))) as [-> ->].
        repeat split.
      - destruct (isIndexExtended indexTip indexPip
                  && isMiddleExtended middleTip indexPip);
          rewrite overlay_finishPath;
          match goal with
          | |- context [finishPath ?s] =>
              destruct (style_finishPath s) as [-> ->]
          end; repeat split. }
    destruct H2 as (H2o & H2c & H2w). rewrite H1 in H2o.
    intros R. injection R as <-.
    eexists. split.
    - exact (calls_overlayIssue _ _ _ (calls_overlayIssue _ _ _ H2o)).
    - simpl. rewrite H2c, H2w. rewrite <- !app_assoc. reflexivity. }
  destruct Hcalls as [overlay' [Ho Hc]].
  exists st', overlay'. split; [exact R|]. split; [exact Ho|].
  split; [exact Hc|]. split.
  - intros Hg.
    destruct (isIndexExtended indexTip indexPip
              && negb (isMiddleExtended middleTip indexPip)).
    + exact (f_equal currentPathRef HE).
    + exfalso.
      assert (Hg' : gestureMode st' <> DRAWING).
      { destruct (isIndexExtended indexTip indexPip
                  && isMiddleExtended middleTip indexPip).
        - replace (gestureMode st') with HOVERING; [discriminate|].
          symmetry.
          transitivity (gestureMode (finishPath (set_gestureMode HOVERING st)));
            [exact (f_equal gestureMode HE)
            |exact (gestureMode_finishPath (set_gestureMode HOVERING st))].
        - replace (gestureMode st') with IDLE; [discriminate|].
          symmetry.
          transitivity (gestureMode (finishPath (set_gestureMode IDLE st)));
            [exact (f_equal gestureMode HE)
            |exact (gestureMode_finishPath (set_gestureMode IDLE st))]. }
      exact (Hg' Hg).
  - intros Hx HW. unfold cx. rewrite Hx, HW. reflexivity.
Qed.

Lemma cursor_position_witness :
  exists st',
    onResults (frameOf (mkLandmark 0.5 0.6 0) (mkLandmark 0.3 0.2 0)
                       (mkLandmark 0.5 0.7 0)) sampleState
    = Returned st'
    /\ currentPathRef st' = [mkPoint 896 (0.2 * 720)].
Proof.
  destruct (cursor_position sampleState sampleCanvas
              (frameOf (mkLandmark 0.5 0.6 0) (mkLandmark 0.3 0.2 0)
                       (mkLandmark 0.5 0.7 0))
              (handOf (mkLandmark 0.5 0.6 0) (mkLandmark 0.3 0.2 0)
                      (mkLandmark 0.5 0.7 0) (mkLandmark 0.5 0.5 0))
              (mkLandmark 0.3 0.2 0) (mkLandmark 0.5 0.7 0)
              (mkLandmark 0.5 0.6 0)
              eq_refl eq_refl eq_refl eq_refl eq_refl eq_refl)
    as (st' & overlay' & R & _ & _ & Hd & Hx).
  exists st'. split; [exact R|].
  assert (G : gestureMode st' = DRAWING).
  { vm_compute in R. injection R as <-. reflexivity. }
  rewrite (Hd G). cbn [sampleState initialState currentPathRef app].
  rewrite (Hx eq_refl eq_refl). reflexivity.
Defined.

(** * The persistent layer *)

Lemma lineTos_from_zero (pts : list Point) :
  flat_map (fun i => match nth_error pts i with
                     | Some p => [LineTo (x p) (y p)]
                     | None => []
                     end)
           (seq 0 (length pts))
  = map (fun p => LineTo (x p) (y p)) pts.
Proof.
  induction pts as [|p pts IH]; [reflexivity|].
  cbn [length seq flat_map nth_error app map]. f_equal.
  rewrite <- seq_shift, flat_map_concat_map, map_map, <- flat_map_concat_map.
  exact IH.
Qed.

(** The [for] loop draws a segment to every point but the first. *)
Lemma lineTos_tail (pts : list Point) :
  lineTos pts = map (fun p => LineTo (x p) (y p)) (tl pts).
Proof.
  unfold lineTos. destruct pts as [|p pts]; [reflexivity|].
  replace (length (p :: pts) - 1) with (length pts) by (simpl; lia).
  cbn [tl].
  rewrite <- seq_shift, flat_map_concat_map, map_map, <- flat_map_concat_map.
  apply lineTos_from_zero.
Qed.

(** X10.  A stroke of two points or more is drawn as one polyline: its own
    colour and width, round caps and joins, a [moveTo] to the first point
    and a [lineTo] to every other point in order, then one [stroke]. *)
Lemma renderPath_polyline p0 p1 rest c w :
  renderPath (mkDrawingPath (p0 :: p1 :: rest) c w)
  = [SetStrokeStyle c; SetLineWidth w; SetLineCap "round"; SetLineJoin "round";
     BeginPath; MoveTo (x p0) (y p0)]
    ++ map (fun p => LineTo (x p) (y p)) (p1 :: rest)
    ++ [Stroke].
Proof.
  unfold renderPath. cbn [points length Nat.ltb Nat.leb nth_error color width].
  rewrite lineTos_tail. reflexivity.
Qed.

(** C10.  [renderMainCanvas] issues no call for a stroke of fewer than two
    points: the calls it makes are the same with the stroke on the surface
    and with the stroke taken out. *)
Theorem renderer_skips_short_strokes (path : DrawingPath) :
  length (points path) < 2 ->
  renderPath path = []
  /\ (forall st before after,
         pathsRef st = before ++ path :: after ->
         canvasRef (renderMainCanvas st)
         = canvasRef (renderMainCanvas (set_pathsRef (before ++ after) st))).
Proof.
  intros Hlen.
  assert (E : renderPath path = []).
  { unfold renderPath.
    destruct (Nat.ltb_spec (length (points path)) 2); [reflexivity|lia]. }
  split; [exact E|].
  intros st before after Hps. unfold renderMainCanvas. simpl.
  destruct (canvasRef st) as [c|]; [|reflexivity].
  simpl. rewrite Hps, !flat_map_app. simpl. rewrite E. reflexivity.
Qed.

Lemma renderer_skips_short_strokes_witness :
  renderPath (mkDrawingPath [mkPoint 5 5] "#ffffff" 5) = []
  /\ (forall st before after,
         pathsRef st
         = before ++ mkDrawingPath [mkPoint 5 5] "#ffffff" 5 :: after ->
         canvasRef (renderMainCanvas st)
         = canvasRef (renderMainCanvas (set_pathsRef (before ++ after) st))).
Proof.
  apply (renderer_skips_short_strokes (mkDrawingPath [mkPoint 5 5] "#ffffff" 5)).
  simpl. lia.
Defined.

(** * Beyond the stated properties: the callback in normal form

    [onResults] interleaves overlay calls with the work on the refs and on
    the main canvas.  The two do not interact, so the overlay calls can be
    gathered in front. *)

Lemma overlayIssue_overlayIssue cs1 cs2 st :
  overlayIssue cs2 (overlayIssue cs1 st) = overlayIssue (cs1 ++ cs2) st.
Proof.
  destruct st as [bc bw gm an cr wr cv ov ps cp]; destruct ov as [o|];
    [|reflexivity].
  unfold overlayIssue, issue. simpl. rewrite <- app_assoc. reflexivity.
Qed.

Lemma drawLive_overlayIssue cs st :
  drawLive (overlayIssue cs st) = overlayIssue cs (drawLive st).
Proof.
  unfold drawLive. simpl.
  destruct (canvasRef st) as [c|]; [|reflexivity].
  destruct (length (currentPathRef st) <? 2); [reflexivity|].
  destruct (nth_error _ _); [|reflexivity].
  destruct (nth_error _ _); reflexivity.
Qed.

Lemma renderMainCanvas_overlayIssue cs st :
  renderMainCanvas (overlayIssue cs st) = overlayIssue cs (renderMainCanvas st).
Proof.
  unfold renderMainCanvas. simpl. destruct (canvasRef st); reflexivity.
Qed.

Lemma finishPath_overlayIssue cs st :
  finishPath (overlayIssue cs st) = overlayIssue cs (finishPath st).
Proof.
  unfold finishPath. simpl.
  destruct (0 <? length (currentPathRef st)); [|reflexivity].
  unfold renderMainCanvas. simpl. destruct (canvasRef st); reflexivity.
Qed.

Lemma set_gestureMode_overlayIssue m cs st :
  set_gestureMode m (overlayIssue cs st) = overlayIssue cs (set_gestureMode m st).
Proof. reflexivity. Qed.

Lemma pushPoint_overlayIssue p cs st :
  pushPoint p (overlayIssue cs st) = overlayIssue cs (pushPoint p st).
Proof. reflexivity. Qed.

Lemma colorRef_overlayIssue cs st :
  colorRef (overlayIssue cs st) = colorRef st.
Proof. reflexivity. Qed.

Lemma widthRef_overlayIssue cs st :
  widthRef (overlayIssue cs st) = widthRef st.
Proof. reflexivity. Qed.

Lemma overlaySize_dims st overlay :
  overlayCanvasRef st = Some overlay ->
  overlaySize st = Some (canvas_width overlay, canvas_height overlay).
Proof. intros H. unfold overlaySize. rewrite H. reflexivity. Qed.

Section NormalForm.

Variable st : State.
Hypothesis Hmounted : mounted st = true.
Variables (W H : number).
Hypothesis Hsize : overlaySize st = Some (W, H).
Variable results : Results.

Lemma onResults_no_hand_normal :
  frameHand results = None ->
  onResults results st
  = Returned (overlayIssue (overlayPrologue W H ++ [Restore])
                (finishPath (set_gestureMode IDLE st))).
Proof.
  revert Hmounted Hsize. unfold mounted, overlaySize, frameHand, onResults.
  destruct (overlayCanvasRef st) as [ov|] eqn:Hov; [|discriminate].
  destruct (canvasRef st) as [cv|] eqn:Hcv; [|discriminate].
  cbn [option_map]. intros _ Hs Hh. injection Hs as <- <-.
  destruct (multiHandLandmarks results) as [[|h hs]|]; try discriminate;
    f_equal;
    change (set_gestureMode IDLE (overlayIssue ?cs st))
      with (overlayIssue cs (set_gestureMode IDLE st));
    rewrite finishPath_overlayIssue, overlayIssue_overlayIssue; reflexivity.
Qed.

Lemma onResults_incomplete_normal landmarks :
  frameHand results = Some landmarks -> handComplete landmarks = false ->
  onResults results st
  = Threw (overlayIssue (overlayPrologue W H ++ overlaySkeleton landmarks) st).
Proof.
  revert Hmounted Hsize.
  unfold mounted, overlaySize, frameHand, handComplete, onResults.
  destruct (overlayCanvasRef st) as [ov|] eqn:Hov; [|discriminate].
  destruct (canvasRef st) as [cv|] eqn:Hcv; [|discriminate].
  cbn [option_map]. intros _ Hs Hh Hc. injection Hs as <- <-.
  destruct (multiHandLandmarks results) as [[|h hs]|]; try discriminate.
  injection Hh as ->.
  destruct (nth_error landmarks 8), (nth_error landmarks 12),
           (nth_error landmarks 6); try discriminate;
    rewrite overlayIssue_overlayIssue; reflexivity.
Qed.

Lemma onResults_hand_normal landmarks indexTip middleTip indexPip :
  frameHand results = Some landmarks ->
  nth_error landmarks 8 = Some indexTip ->
  nth_error landmarks 12 = Some middleTip ->
  nth_error landmarks 6 = Some indexPip ->
  onResults results st
  = Returned
      (overlayIssue
         (overlayPrologue W H ++ overlaySkeleton landmarks
          ++ overlayCursor (cursorOf indexTip W H) (colorRef st) (widthRef st)
          ++ [Restore])
         (if isIndexExtended indexTip indexPip
             && negb (isMiddleExtended middleTip indexPip)
          then drawLive (pushPoint (cursorOf indexTip W H)
                                   (set_gestureMode DRAWING st))
          else if isIndexExtended indexTip indexPip
                  && isMiddleExtended middleTip indexPip
          then finishPath (set_gestureMode HOVERING st)
          else finishPath (set_gestureMode IDLE st))).
Proof.
  revert Hmounted Hsize. unfold mounted, overlaySize, frameHand, onResults.
  destruct (overlayCanvasRef st) as [ov|] eqn:Hov; [|discriminate].
  destruct (canvasRef st) as [cv|] eqn:Hcv; [|discriminate].
  cbn [option_map]. intros _ Hs Hh H8 H12 H6. injection Hs as <- <-.
  destruct (multiHandLandmarks results) as [[|h hs]|]; try discriminate.
  injection Hh as ->. rewrite H8, H12, H6. cbv zeta.
  fold (overlayPrologue (canvas_width ov) (canvas_height ov)).
  fold (overlaySkeleton landmarks).
  fold (cursorOf indexTip (canvas_width ov) (canvas_height ov)).
  set (p := cursorOf indexTip (canvas_width ov) (canvas_height ov)).
  f_equal.
  destruct (isIndexExtended indexTip indexPip
            && negb (isMiddleExtended middleTip indexPip)).
  - rewrite !set_gestureMode_overlayIssue, !pushPoint_overlayIssue,
      !drawLive_overlayIssue, !colorRef_overlayIssue,
      !widthRef_overlayIssue.
    destruct (style_drawLive (pushPoint p (set_gestureMode DRAWING st)))
      as [-> ->].
    rewrite !overlayIssue_overlayIssue, <- ?app_assoc. reflexivity.
  - destruct (isIndexExtended indexTip indexPip
              && isMiddleExtended middleTip indexPip);
      rewrite !set_gestureMode_overlayIssue, !finishPath_overlayIssue,
        !colorRef_overlayIssue, !widthRef_overlayIssue;
      match goal with
      | |- context [finishPath ?s] => destruct (style_finishPath s) as [-> ->]
      end;
      rewrite !overlayIssue_overlayIssue, <- ?app_assoc; reflexivity.
Qed.

End NormalForm.

(** ** Observers under the state functions *)

Lemma mainCalls_overlayIssue cs st : mainCalls (overlayIssue cs st) = mainCalls st.
Proof. reflexivity. Qed.

Lemma overlayCalls_overlayIssue cs st :
  mounted st = true ->
  overlayCalls (overlayIssue cs st) = overlayCalls st ++ cs.
Proof.
  unfold mounted, overlayCalls, overlayIssue. simpl.
  destruct (overlayCanvasRef st); [reflexivity|discriminate].
Qed.

Lemma overlayCalls_drawLive st : overlayCalls (drawLive st) = overlayCalls st.
Proof. unfold overlayCalls. rewrite overlay_drawLive. reflexivity. Qed.

Lemma overlayCalls_finishPath st : overlayCalls (finishPath st) = overlayCalls st.
Proof. unfold overlayCalls. rewrite overlay_finishPath. reflexivity. Qed.

Lemma mounted_canvas st :
  mounted st = true -> exists c, canvasRef st = Some c.
Proof.
  unfold mounted. destruct (overlayCanvasRef st); [|discriminate].
  destruct (canvasRef st); [eauto|discriminate].
Qed.

(** * The live segment *)

Lemma drawLive_two_points st c pts a b :
  canvasRef st = Some c ->
  currentPathRef st = pts ++ [a; b] ->
  drawLive st
  = set_canvasRef
      (Some (issue (segment (colorRef st) (widthRef st) a b) c)) st.
Proof.
  intros Hc Hp. unfold drawLive. rewrite Hc, Hp.
  assert (Hlen : length (pts ++ [a; b]) = length pts + 2)
    by (rewrite length_app; reflexivity).
  rewrite Hlen.
  destruct (Nat.ltb_spec (length pts + 2) 2) as [Hlt|_]; [lia|].
  replace (length pts + 2 - 2) with (length pts) by lia.
  replace (length pts + 2 - 1) with (S (length pts)) by lia.
  rewrite !nth_error_app2 by lia.
  replace (length pts - length pts) with 0 by lia.
  replace (S (length pts) - length pts) with 1 by lia.
  reflexivity.
Qed.

(** What [drawLive] adds to the main canvas, for any live path. *)
Lemma mainCalls_drawLive st c :
  canvasRef st = Some c ->
  mainCalls (drawLive st)
  = mainCalls st
    ++ match rev (currentPathRef st) with
       | b :: a :: _ => segment (colorRef st) (widthRef st) a b
       | _ => []
       end.
Proof.
  intros Hc.
  destruct (rev (currentPathRef st)) as [|b [|a r]] eqn:Hr;
    apply (f_equal (@rev Point)) in Hr; rewrite rev_involutive in Hr.
  - unfold drawLive. rewrite Hc, Hr. simpl. rewrite app_nil_r. reflexivity.
  - unfold drawLive. rewrite Hc, Hr. simpl. rewrite app_nil_r. reflexivity.
  - simpl in Hr. rewrite <- app_assoc in Hr. simpl in Hr.
    rewrite (drawLive_two_points st c (rev r) a b Hc Hr).
    unfold mainCalls. rewrite Hc. reflexivity.
Qed.

(** X1.  With the main canvas mounted, [drawLive] strokes one segment, from
    the last but one to the last point of the live path, in the current
    colour and width; it strokes nothing for a live path of fewer than two
    points, never redraws earlier points, and changes no ref. *)
Theorem drawLive_last_segment (st : State) (c : Canvas) :
  canvasRef st = Some c ->
  mainCalls (drawLive st)
  = mainCalls st
    ++ match rev (currentPathRef st) with
       | b :: a :: _ => segment (colorRef st) (widthRef st) a b
       | _ => []
       end
  /\ overlayCalls (drawLive st) = overlayCalls st
  /\ eraseCalls (drawLive st) = eraseCalls st.
Proof.
  intros Hc. split; [exact (mainCalls_drawLive st c Hc)|].
  split; [apply overlayCalls_drawLive|apply eraseCalls_drawLive].
Qed.

Lemma drawLive_last_segment_witness :
  mainCalls
    (drawLive (set_currentPathRef [mkPoint 1 1; mkPoint 2 2; mkPoint 3 3]
                                  smallState))
  = segment "#ffffff" 5 (mkPoint 2 2) (mkPoint 3 3).
Proof.
  exact (proj1 (drawLive_last_segment
                  (set_currentPathRef [mkPoint 1 1; mkPoint 2 2; mkPoint 3 3]
                                      smallState)
                  smallCanvas eq_refl)).
Defined.

(** A [DRAWING] frame adds to the main canvas exactly one segment, from the
    previous last point of the live path to the new fingertip position, and
    nothing at all when it starts a stroke. *)
Lemma mainCalls_step_drawing st results W H p :
  mounted st = true -> overlaySize st = Some (W, H) ->
  frameMode results = Some DRAWING -> frameCursor results W H = Some p ->
  mainCalls (step st (Frame results))
  = mainCalls st
    ++ polySegments (colorRef st) (widthRef st) (lastPoint st ++ [p]).
Proof.
  intros Hm Hs Hd Hp.
  destruct (frameMode_drawing_hand _ Hd) as [landmarks Hh].
  destruct (frameMode_complete _ _ _ Hh Hd)
    as (it & mt & ip & H8 & H12 & H6 & E).
  assert (Hp' : p = cursorOf it W H).
  { unfold frameCursor in Hp. rewrite Hh, H8 in Hp. congruence. }
  subst p.
  assert (Hb : isIndexExtended it ip && negb (isMiddleExtended mt ip) = true).
  { destruct (isIndexExtended it ip && negb (isMiddleExtended mt ip));
      [reflexivity|].
    destruct (isIndexExtended it ip && isMiddleExtended mt ip); discriminate. }
  change (step st (Frame results)) with (stateOf (onResults results st)).
  rewrite (onResults_hand_normal st Hm W H Hs results _ _ _ _ Hh H8 H12 H6), Hb.
  cbn [stateOf]. rewrite mainCalls_overlayIssue.
  destruct (mounted_canvas _ Hm) as [c Hc].
  rewrite (mainCalls_drawLive _ c) by exact Hc.
  cbn [pushPoint set_currentPathRef set_gestureMode currentPathRef colorRef
       widthRef].
  rewrite rev_app_distr. cbn [rev app].
  unfold mainCalls, lastPoint, polySegments. cbn [canvasRef].
  destruct (rev (currentPathRef st)); cbn; rewrite ?app_nil_r; reflexivity.
Qed.

Lemma lastPoint_pushed st st' p :
  currentPathRef st' = currentPathRef st ++ [p] -> lastPoint st' = [p].
Proof.
  intros H. unfold lastPoint. rewrite H, rev_app_distr. reflexivity.
Qed.

Lemma polySegments_cons c w a p ps :
  polySegments c w (a :: p :: ps)
  = segment c w a p ++ polySegments c w (p :: ps).
Proof. reflexivity. Qed.

Lemma live_trace frames : forall st pts W H,
  mounted st = true -> overlaySize st = Some (W, H) ->
  Forall (fun r => frameMode r = Some DRAWING) frames ->
  map Some pts = map (fun r => frameCursor r W H) frames ->
  mainCalls (run (map Frame frames) st)
  = mainCalls st
    ++ polySegments (colorRef st) (widthRef st) (lastPoint st ++ pts).
Proof.
  induction frames as [|r rs IH]; intros st pts W H Hm Hs Hall Hpts.
  - destruct pts; [|discriminate]. cbn [map run fold_left].
    unfold lastPoint, polySegments.
    destruct (rev (currentPathRef st)); cbn; rewrite app_nil_r; reflexivity.
  - destruct pts as [|p ps]; [discriminate|].
    inversion Hall as [|? ? Hr Hrs]; subst.
    cbn [map] in Hpts. injection Hpts as Hp Hps. symmetry in Hp.
    destruct (step_drawing_fields st Hm r W H p Hs Hr Hp)
      as (Hm1 & Hs1 & _ & Hc1 & Hw1 & _ & Hcp1).
    cbn [map run fold_left].
    change (fold_left step (map Frame rs) (step st (Frame r)))
      with (run (map Frame rs) (step st (Frame r))).
    rewrite (IH (step st (Frame r)) ps W H Hm1 Hs1 Hrs Hps).
    rewrite (mainCalls_step_drawing st r W H p Hm Hs Hr Hp).
    rewrite (lastPoint_pushed st _ p Hcp1), Hc1, Hw1, <- app_assoc.
    f_equal. unfold lastPoint.
    destruct (rev (currentPathRef st)) as [|a l]; cbn [app].
    + reflexivity.
    + rewrite polySegments_cons.
      change (polySegments (colorRef st) (widthRef st) [a; p])
        with (segment (colorRef st) (widthRef st) a p ++ []).
      rewrite app_nil_r. reflexivity.
Qed.

(** X2.  While a stroke is being drawn, the main canvas receives its
    polyline piece by piece: after any number of consecutive [DRAWING]
    frames from an empty live path, the calls added are the segments
    between consecutive fingertip positions, in order, each stroked once
    in the current colour and width; the first frame alone draws nothing. *)
Theorem live_stroke_drawn_piecewise
        (st : State) (frames : list Results) (pts : list Point)
        (W H : number) :
  mounted st = true -> overlaySize st = Some (W, H) ->
  currentPathRef st = [] ->
  Forall (fun r => frameMode r = Some DRAWING) frames ->
  map Some pts = map (fun r => frameCursor r W H) frames ->
  mainCalls (run (map Frame frames) st)
  = mainCalls st ++ polySegments (colorRef st) (widthRef st) pts.
Proof.
  intros Hm Hs Hcp Hall Hpts.
  rewrite (live_trace frames st pts W H Hm Hs Hall Hpts).
  unfold lastPoint. rewrite Hcp. reflexivity.
Qed.

Lemma live_stroke_drawn_piecewise_witness :
  mainCalls
    (run (map Frame [drawingFrame 0.6875 0.3125; drawingFrame 0.625 0.375;
                     drawingFrame 0.5625 0.4375]) smallState)
  = mainCalls smallState
    ++ polySegments (colorRef smallState) (widthRef smallState)
         [mkPoint 5 5; mkPoint 6 6; mkPoint 7 7].
Proof.
  apply (live_stroke_drawn_piecewise smallState
           [drawingFrame 0.6875 0.3125; drawingFrame 0.625 0.375;
            drawingFrame 0.5625 0.4375]
           [mkPoint 5 5; mkPoint 6 6; mkPoint 7 7] 16 16);
    try reflexivity.
  repeat constructor.
Defined.

(** * Finishing a stroke on the main canvas *)

Lemma mainCalls_finishPath st c :
  canvasRef st = Some c ->
  mainCalls (finishPath st)
  = mainCalls st
    ++ match currentPathRef st with
       | [] => []
       | _ :: _ =>
           ClearRect 0 0 (canvas_width c) (canvas_height c)
           :: flat_map renderPath
                (pathsRef st
                 ++ [mkDrawingPath (currentPathRef st) (colorRef st)
                                   (widthRef st)])
       end.
Proof.
  intros Hc. unfold finishPath.
  destruct (currentPathRef st) as [|q qs] eqn:Hq.
  - simpl. rewrite app_nil_r. reflexivity.
  - cbn [length Nat.ltb Nat.leb]. unfold renderMainCanvas, mainCalls.
    cbn [canvasRef set_currentPathRef set_pathsRef pathsRef].
    rewrite Hc. reflexivity.
Qed.

(** A processed frame of a mode other than [DRAWING] is [finishPath] under
    that mode, plus calls on the overlay. *)
Lemma step_frame_other_normal st results m W H :
  mounted st = true -> overlaySize st = Some (W, H) ->
  frameMode results = Some m -> m <> DRAWING ->
  exists cs,
    step st (Frame results)
    = overlayIssue cs (finishPath (set_gestureMode m st)).
Proof.
  intros Hm Hs Hf Hn.
  change (step st (Frame results)) with (stateOf (onResults results st)).
  destruct (frameHand results) as [landmarks|] eqn:Hh.
  - destruct (frameMode_complete _ _ _ Hh Hf)
      as (it & mt & ip & H8 & H12 & H6 & E).
    rewrite (onResults_hand_normal st Hm W H Hs results _ _ _ _ Hh H8 H12 H6).
    cbn [stateOf].
    destruct (isIndexExtended it ip && negb (isMiddleExtended mt ip));
      [congruence|].
    destruct (isIndexExtended it ip && isMiddleExtended mt ip); subst m; eauto.
  - unfold frameMode in Hf. rewrite Hh in Hf. injection Hf as <-.
    rewrite (onResults_no_hand_normal st Hm W H Hs results Hh).
    cbn [stateOf]. eauto.
Qed.

(** X3.  A frame of a mode other than [DRAWING] that finds a non-empty live
    path redraws the main canvas from scratch: one [clearRect] over the
    whole canvas, then every stroke of the surface in order, the new stroke
    last.  With an empty live path it issues no call on the main canvas. *)
Theorem finishing_frame_redraws
        (st : State) (c : Canvas) (results : Results) (m : GestureMode) :
  mounted st = true -> canvasRef st = Some c ->
  frameMode results = Some m -> m <> DRAWING ->
  mainCalls (step st (Frame results))
  = mainCalls st
    ++ match currentPathRef st with
       | [] => []
       | _ :: _ =>
           ClearRect 0 0 (canvas_width c) (canvas_height c)
           :: flat_map renderPath
                (pathsRef st
                 ++ [mkDrawingPath (currentPathRef st) (colorRef st)
                                   (widthRef st)])
       end.
Proof.
  intros Hm Hc Hf Hn.
  destruct (mounted_overlaySize _ Hm) as (W & H & Hs).
  destruct (step_frame_other_normal st results m W H Hm Hs Hf Hn) as [cs E].
  rewrite E, mainCalls_overlayIssue.
  exact (mainCalls_finishPath (set_gestureMode m st) c Hc).
Qed.

Lemma finishing_frame_redraws_witness :
  mainCalls
    (step (run [Frame (drawingFrame 0.625 0.375);
                Frame (drawingFrame 0.5625 0.4375)] smallState)
          (Frame noHand))
  = segment "#ffffff" 5 (mkPoint 6 6) (mkPoint 7 7)
    ++ ClearRect 0 0 16 16
       :: renderPath (mkDrawingPath [mkPoint 6 6; mkPoint 7 7] "#ffffff" 5).
Proof.
  rewrite (finishing_frame_redraws
             (run [Frame (drawingFrame 0.625 0.375);
                   Frame (drawingFrame 0.5625 0.4375)] smallState)
             (mkCanvas 16 16 (segment "#ffffff" 5 (mkPoint 6 6) (mkPoint 7 7)))
             noHand IDLE);
    [vm_compute; reflexivity
    |vm_compute; reflexivity
    |vm_compute; reflexivity
    |reflexivity
    |discriminate].
Defined.

(** * Frames the callback cannot use *)

Lemma short_hand_incomplete landmarks :
  length landmarks <= 12 -> handComplete landmarks = false.
Proof.
  intros Hlen. unfold handComplete.
  assert (H12 : nth_error landmarks 12 = None)
    by (apply nth_error_None; exact Hlen).
  rewrite H12. destruct (nth_error landmarks 8); reflexivity.
Qed.

(** X4.  A hand with fewer than 13 landmarks makes [onResults] throw.  By
    then it has saved, cleared and mirrored the overlay and drawn the
    skeleton, and the overlay context is left without the matching
    [restore]; the mode, the live path, the surface and the main canvas are
    as before. *)
Theorem short_hand_throws
        (st : State) (results : Results) (landmarks : list Landmark)
        (W H : number) :
  mounted st = true -> overlaySize st = Some (W, H) ->
  frameHand results = Some landmarks -> length landmarks <= 12 ->
  exists st',
    onResults results st = Threw st'
    /\ eraseCalls st' = eraseCalls st
    /\ mainCalls st' = mainCalls st
    /\ overlayCalls st'
       = overlayCalls st
         ++ [Save; ClearRect 0 0 W H; Translate W 0; Scale (-1) 1;
             DrawConnectors landmarks "#00FF00" 2;
             DrawLandmarks landmarks "#FF0000" 1 2].
Proof.
  intros Hm Hs Hh Hlen.
  pose proof (short_hand_incomplete _ Hlen) as Hc.
  rewrite (onResults_incomplete_normal st Hm W H Hs results _ Hh Hc).
  eexists. split; [reflexivity|].
  split; [apply eraseCalls_overlayIssue|].
  split; [apply mainCalls_overlayIssue|].
  rewrite overlayCalls_overlayIssue by exact Hm. reflexivity.
Qed.

Lemma short_hand_throws_witness :
  exists st',
    onResults (mkResults (Some [[mkLandmark 0.5 0.5 0]])) smallState = Threw st'
    /\ eraseCalls st' = eraseCalls smallState
    /\ mainCalls st' = mainCalls smallState
    /\ overlayCalls st'
       = overlayCalls smallState
         ++ [Save; ClearRect 0 0 16 16; Translate 16 0; Scale (-1) 1;
             DrawConnectors [mkLandmark 0.5 0.5 0] "#00FF00" 2;
             DrawLandmarks [mkLandmark 0.5 0.5 0] "#FF0000" 1 2].
Proof.
  apply (short_hand_throws smallState
           (mkResults (Some [[mkLandmark 0.5 0.5 0]]))
           [mkLandmark 0.5 0.5 0] 16 16);
    [reflexivity|reflexivity|reflexivity|simpl; lia].
Defined.

(** X5.  On a frame without a hand the overlay is saved, cleared, mirrored
    and restored, and nothing is drawn on it: no skeleton, no cursor. *)
Theorem no_hand_clears_overlay
        (st : State) (results : Results) (W H : number) :
  mounted st = true -> overlaySize st = Some (W, H) ->
  frameHand results = None ->
  overlayCalls (step st (Frame results))
  = overlayCalls st
    ++ [Save; ClearRect 0 0 W H; Translate W 0; Scale (-1) 1; Restore].
Proof.
  intros Hm Hs Hh.
  change (step st (Frame results)) with (stateOf (onResults results st)).
  rewrite (onResults_no_hand_normal st Hm W H Hs results Hh). cbn [stateOf].
  rewrite overlayCalls_overlayIssue.
  - rewrite overlayCalls_finishPath. reflexivity.
  - rewrite (proj1 (finishPath_mounted (set_gestureMode IDLE st))). exact Hm.
Qed.

Lemma no_hand_clears_overlay_witness :
  overlayCalls (step smallState (Frame noHand))
  = overlayCalls smallState
    ++ [Save; ClearRect 0 0 16 16; Translate 16 0; Scale (-1) 1; Restore].
Proof.
  apply (no_hand_clears_overlay smallState noHand 16 16); reflexivity.
Defined.

(** X6.  While a canvas is not mounted, frames are dropped: whatever the
    frames carry, the whole state stays as it is. *)
Theorem unmounted_frames_dropped (st : State) (frames : list Results) :
  mounted st = false -> run (map Frame frames) st = st.
Proof.
  intros Hm. induction frames as [|r rs IH]; [reflexivity|].
  cbn [map run fold_left step].
  rewrite (onResults_unmounted r st Hm). exact IH.
Qed.

Lemma unmounted_frames_dropped_witness :
  run (map Frame [drawingFrame 0.625 0.375; idleFrame])
      (initialState None (Some smallCanvas))
  = initialState None (Some smallCanvas).
Proof.
  apply (unmounted_frames_dropped (initialState None (Some smallCanvas))
           [drawingFrame 0.625 0.375; idleFrame]).
  reflexivity.
Defined.

Lemma live_path_only_while_drawing_witness :
  currentPathRef
    (step (step smallState (Frame (drawingFrame 0.625 0.375)))
          (Frame (hoveringFrame 0.5 0.25)))
  = [].
Proof.
  apply (live_path_only_while_drawing
           (step (step smallState (Frame (drawingFrame 0.625 0.375)))
                 (Frame (hoveringFrame 0.5 0.25)))).
  - apply reachable_step, reachable_step, reachable_init.
  - vm_compute. discriminate.
Defined.

(** * What events leave alone *)

Lemma pathsRef_step_grows st e :
  e <> ClearCanvas -> exists added, pathsRef (step st e) = pathsRef st ++ added.
Proof.
  intros Hne. destruct e as [results|c|w|].
  - destruct (step_frame_cases st results) as [E|[[p E]|[m [_ E]]]].
    + exists []. rewrite app_nil_r. exact (f_equal pathsRef E).
    + exists []. rewrite app_nil_r. exact (f_equal pathsRef E).
    + pose proof (pathsRef_finishPath (set_gestureMode m st)) as Hp.
      cbn [set_gestureMode currentPathRef pathsRef colorRef widthRef] in Hp.
      destruct (currentPathRef st) as [|q qs].
      * exists []. rewrite app_nil_r, <- Hp. exact (f_equal pathsRef E).
      * eexists. rewrite <- Hp. exact (f_equal pathsRef E).
  - exists []. rewrite app_nil_r. reflexivity.
  - exists []. rewrite app_nil_r. reflexivity.
  - congruence.
Qed.

(** X8.  Between two presses of Clear the drawing surface only grows: frames
    and brush changes keep every finished stroke, with its points, colour
    and width, at its place, and at most append new strokes after it. *)
Theorem surface_append_only (st : State) (es : list Event) :
  ~ In ClearCanvas es ->
  exists added, pathsRef (run es st) = pathsRef st ++ added.
Proof.
  revert st. induction es as [|e es IH]; intros st Hn.
  - exists []. rewrite app_nil_r. reflexivity.
  - assert (He : e <> ClearCanvas) by (intros ->; apply Hn; left; reflexivity).
    assert (Hes : ~ In ClearCanvas es) by (intros Hin; apply Hn; right; exact Hin).
    destruct (pathsRef_step_grows st e He) as [a1 E1].
    destruct (IH (step st e) Hes) as [a2 E2].
    exists (a1 ++ a2). cbn [run fold_left].
    change (fold_left step es (step st e)) with (run es (step st e)).
    rewrite E2, E1, app_assoc. reflexivity.
Qed.

Lemma surface_append_only_witness :
  exists added,
    pathsRef (run [Frame (drawingFrame 0.625 0.375); SetBrushColor "#ef4444";
                   Frame idleFrame] smallState)
    = pathsRef smallState ++ added.
Proof.
  apply (surface_append_only smallState
           [Frame (drawingFrame 0.625 0.375); SetBrushColor "#ef4444";
            Frame idleFrame]).
  intros [H|[H|[H|[]]]]; discriminate.
Defined.

Lemma style_step_frame st results :
  colorRef (step st (Frame results)) = colorRef st
  /\ widthRef (step st (Frame results)) = widthRef st.
Proof.
  destruct (step_frame_cases st results) as [E|[[p E]|[m [_ E]]]].
  - split; [exact (f_equal colorRef E)|exact (f_equal widthRef E)].
  - split; [exact (f_equal colorRef E)|exact (f_equal widthRef E)].
  - destruct (style_finishPath (set_gestureMode m st)) as [Hc Hw].
    split;
      [transitivity (colorRef (finishPath (set_gestureMode m st)))
      |transitivity (widthRef (finishPath (set_gestureMode m st)))];
      [exact (f_equal colorRef E)|exact Hc|exact (f_equal widthRef E)|exact Hw].
Qed.

Lemma style_clearCanvas st :
  colorRef (clearCanvas st) = colorRef st
  /\ widthRef (clearCanvas st) = widthRef st.
Proof.
  unfold clearCanvas, renderMainCanvas. simpl.
  destruct (canvasRef st); split; reflexivity.
Qed.

(** X9.  Only the colour picker and the size slider change the brush:
    through any sequence of frames and presses of Clear, [colorRef] and
    [widthRef] keep their values. *)
Theorem brush_kept_by_frames_and_clear (st : State) (es : list Event) :
  Forall (fun e => match e with
                   | Frame _ | ClearCanvas => True
                   | SetBrushColor _ | SetBrushWidth _ => False
                   end) es ->
  colorRef (run es st) = colorRef st /\ widthRef (run es st) = widthRef st.
Proof.
  revert st. induction es as [|e es IH]; intros st Hall; [split; reflexivity|].
  inversion Hall as [|? ? He Hes]; subst.
  cbn [run fold_left].
  change (fold_left step es (step st e)) with (run es (step st e)).
  destruct (IH (step st e) Hes) as [Hc Hw]. rewrite Hc, Hw.
  destruct e as [results|c|w|]; try contradiction.
  - apply style_step_frame.
  - apply style_clearCanvas.
Qed.

Lemma brush_kept_by_frames_and_clear_witness :
  colorRef (run [Frame (drawingFrame 0.625 0.375); ClearCanvas; Frame noHand]
                (setBrushColor "#22c55e" smallState))
  = "#22c55e"%string
  /\ widthRef (run [Frame (drawingFrame 0.625 0.375); ClearCanvas; Frame noHand]
                   (setBrushColor "#22c55e" smallState))
     = 5%float.
Proof.
  apply (brush_kept_by_frames_and_clear
           (setBrushColor "#22c55e" smallState)
           [Frame (drawingFrame 0.625 0.375); ClearCanvas; Frame noHand]).
  repeat constructor.
Defined.




(** * The Analyze button *)





(** X12.  As soon as a frame of another mode has finished a stroke, Analyze
    sends the main canvas as just redrawn, sets the busy flag and leaves the
    drawing alone.  A stroke of a single point is enough, although the
    redraw shows nothing for it. *)
Theorem analyze_after_finished_stroke
        (toDataURL : Canvas -> string) (st : State) (c : Canvas)
        (results : Results) (m : GestureMode) (busy : bool) :
  mounted st = true -> canvasRef st = Some c ->
  frameMode results = Some m -> m <> DRAWING ->
  currentPathRef st <> [] ->
  let st' := step st (Frame results) in
  exists c',
    canvasRef st' = Some c'
    /\ calls c'
       = calls c
         ++ ClearRect 0 0 (canvas_width c) (canvas_height c)
            :: flat_map renderPath
                 (pathsRef st
                  ++ [mkDrawingPath (currentPathRef st) (colorRef st)
                                    (widthRef st)])
    /\ handleAnalyze_request toDataURL (mkAppState st' busy)
       = (mkAppState st' true, Some (toDataURL c')).
Proof.
  intros Hm Hc Hf Hn Hne st'.
  assert (Hcalls :
    mainCalls st'
    = mainCalls st
      ++ match currentPathRef st with
         | [] => []
         | _ :: _ =>
             ClearRect 0 0 (canvas_width c) (canvas_height c)
             :: flat_map renderPath
                  (pathsRef st
                   ++ [mkDrawingPath (currentPathRef st) (colorRef st)
                                     (widthRef st)])
         end).
  { destruct (mounted_overlaySize _ Hm) as (W & H & Hs).
    destruct (step_frame_other_normal st results m W H Hm Hs Hf Hn) as [cs E].
    unfold st'. rewrite E, mainCalls_overlayIssue.
    exact (mainCalls_finishPath (set_gestureMode m st) c Hc). }
  destruct (step_other_fields st Hm results m Hf Hn)
    as (Hm' & _ & _ & _ & _ & Hp & _).
  fold st' in Hm', Hp.
  destruct (mounted_canvas _ Hm') as [c' Hc'].
  exists c'. split; [exact Hc'|].
  unfold mainCalls in Hcalls. rewrite Hc', Hc in Hcalls.
  destruct (currentPathRef st) as [|q qs] eqn:Hq; [congruence|].
  split; [exact Hcalls|].
  unfold handleAnalyze_request. cbn [drawing]. rewrite Hc', Hp, length_app.
  cbn [length]. rewrite Nat.add_1_r. reflexivity.
Qed.

Lemma analyze_after_finished_stroke_witness :
  let st' := step (step smallState (Frame (drawingFrame 0.625 0.375)))
                  (Frame idleFrame) in
  exists c',
    canvasRef st' = Some c'
    /\ calls c' = [ClearRect 0 0 16 16]
    /\ handleAnalyze_request (fun _ => "png"%string) (mkAppState st' false)
       = (mkAppState st' true, Some "png"%string).
Proof.
  exact (analyze_after_finished_stroke
           (fun _ => "png"%string)
           (step smallState (Frame (drawingFrame 0.625 0.375)))
           smallCanvas idleFrame IDLE false
           eq_refl eq_refl eq_refl
           ltac:(discriminate) ltac:(vm_compute; discriminate)).
Defined.

(** * One frame and the surface *)

(** X14.  Whatever a frame carries and whether or not the canvases are
    mounted, the frame either leaves the drawing surface as it is or appends
    exactly one stroke, and then that stroke is the live path as it was
    before the frame, in the current colour and width. *)
Theorem frame_appends_live_path_or_nothing (st : State) (results : Results) :
  pathsRef (step st (Frame results)) = pathsRef st
  \/ (currentPathRef st <> []
      /\ currentPathRef (step st (Frame results)) = []
      /\ pathsRef (step st (Frame results))
         = pathsRef st
           ++ [mkDrawingPath (currentPathRef st) (colorRef st) (widthRef st)]).
Proof.
  destruct (step_frame_cases st results) as [E|[[p E]|[m [_ E]]]].
  - left. exact (f_equal pathsRef E).
  - left. exact (f_equal pathsRef E).
  - assert (Hp : pathsRef (step st (Frame results))
                 = pathsRef (finishPath (set_gestureMode m st)))
      by exact (f_equal pathsRef E).
    assert (Hc : currentPathRef (step st (Frame results)) = []).
    { transitivity (currentPathRef (finishPath (set_gestureMode m st)));
        [exact (f_equal currentPathRef E)
        |exact (currentPathRef_finishPath (set_gestureMode m st))]. }
    pose proof (pathsRef_finishPath (set_gestureMode m st)) as Hf.
    cbn [set_gestureMode currentPathRef pathsRef colorRef widthRef] in Hf.
    destruct (currentPathRef st) as [|q qs] eqn:Hq.
    + left. rewrite Hp. exact Hf.
    + right. split; [discriminate|]. split; [exact Hc|].
      rewrite Hp. exact Hf.
Qed.
